(** * Proxy Recorder: the interception, correlation and persistence pipeline

    A shallow embedding of [pkg/recorder], [pkg/proxy], [pkg/server] and
    [pkg/tool].  Go values are modelled as follows.

    - [int] is a 64-bit two's complement integer: a [Z] with the wrap-around
      of [+] written out ([Go.add]).
    - [[]byte] and [string] are both byte sequences: [string].  A [nil]
      slice is distinguished from an empty one only where the code looks at
      it ([MaybeGetSnapshot] and its callers): there it is an [option].
    - A Go function returning [(T, error)] returns a [Go.result T]; a
      function returning only [error] returns an [option Go.error]
      ([None] is [nil]).
    - The file system is a finite map from a root path to the directories
      below it, each a finite map from file name to content.  Reading a file
      fails only when it is absent and writing into an existing directory
      succeeds: faults of the operating system are not part of the model.
      Every entry of a store root is a directory.
    - Interfaces ([RecorderSaver], [RequestSelector], [Snapshotter]) are
      records of functions or type classes; [encoding/json], [compress/gzip]
      and [net/url] are taken as parameters ([Go.Lib]). *)

From Stdlib Require Import ZArith String Ascii List Lia Bool.
From stdpp Require Import gmap strings list fin_maps sorting.

(** ** The parts of the Go standard library the program uses *)

Module Go.

(** Errors.  [os.IsNotExist] has to tell a missing file from every other
    failure, so the two are kept apart. *)
Inductive error : Type :=
| ErrNotExist (path : string)
| ErrorString (msg : string).

Definition Error (e : error) : string :=
  match e with
  | ErrNotExist path => "open " +:+ path +:+ ": no such file or directory"
  | ErrorString msg => msg
  end.

Definition IsNotExist (e : error) : bool :=
  match e with
  | ErrNotExist _ => true
  | ErrorString _ => false
  end.

Inductive result (A : Type) : Type :=
| Ok (a : A)
| Err (e : error).
Global Arguments Ok {A} a.
Global Arguments Err {A} e.

(** [int]: 64 bits, two's complement. *)
Definition minInt : Z := - 2 ^ 63.
Definition maxInt : Z := 2 ^ 63 - 1.
Definition wrap (z : Z) : Z := ((z + 2 ^ 63) mod 2 ^ 64 - 2 ^ 63)%Z.
Definition add (a b : Z) : Z := wrap (a + b).

(** The double quote, for messages that contain one. *)
Definition dquote : string := String (ascii_of_nat 34) "".

(** [strings.HasPrefix]. *)
Fixpoint HasPrefix (s prefix : string) : bool :=
  match prefix with
  | "" => true
  | String p prefix' =>
      match s with
      | "" => false
      | String c s' => if Ascii.eqb c p then HasPrefix s' prefix' else false
      end
  end.

(** [strings.Contains]. *)
Fixpoint Contains (s substr : string) : bool :=
  if HasPrefix s substr then true
  else match s with
       | "" => false
       | String _ s' => Contains s' substr
       end.

(** Decimal digits. *)
Definition digit_value (c : ascii) : option Z :=
  let n := Z.of_N (N_of_ascii c) in
  if (48 <=? n)%Z && (n <=? 57)%Z then Some (n - 48)%Z else None.

Definition is_digit (c : ascii) : bool :=
  match digit_value c with Some _ => true | None => false end.

Fixpoint digits_value (acc : Z) (s : string) : option Z :=
  match s with
  | "" => Some acc
  | String c s' =>
      match digit_value c with
      | Some d => digits_value (acc * 10 + d) s'
      | None => None
      end
  end.

(** [strconv.Atoi]: an optional sign, then at least one decimal digit;
    a value outside [int] is a range error. *)
Definition Atoi (s : string) : result Z :=
  let syntax := ErrorString ("strconv.Atoi: parsing " +:+ dquote +:+ s +:+ dquote +:+ ": invalid syntax") in
  let range := ErrorString ("strconv.Atoi: parsing " +:+ dquote +:+ s +:+ dquote +:+ ": value out of range") in
  let '(neg, body) :=
    match s with
    | String "-" t => (true, t)
    | String "+" t => (false, t)
    | _ => (false, s)
    end in
  match body with
  | "" => Err syntax
  | _ =>
      match digits_value 0 body with
      | None => Err syntax
      | Some v =>
          let n := if neg : bool then (- v)%Z else v in
          if (minInt <=? n)%Z && (n <=? maxInt)%Z then Ok n else Err range
      end
  end.

(** Decimal rendering of a natural number, without leading zeros. *)
Definition digit_char (d : Z) : ascii := ascii_of_N (Z.to_N (48 + d)).

Fixpoint decimal_go (fuel : nat) (n : Z) (acc : string) : string :=
  match fuel with
  | O => acc
  | S fuel' =>
      let acc' := String (digit_char (n mod 10)) acc in
      if (n <? 10)%Z then acc' else decimal_go fuel' (n / 10) acc'
  end.

Definition decimal (n : Z) : string :=
  decimal_go (S (Z.to_nat (Z.log2 n))) n "".

Fixpoint zeros (k : nat) : string :=
  match k with
  | O => ""
  | S k' => String "0" (zeros k')
  end.

(** [fmt.Sprintf("%d", n)]. *)
Definition Sprintf_d (n : Z) : string :=
  if (n <? 0)%Z then "-" +:+ decimal (- n) else decimal n.

(** [fmt.Sprintf("%06d", n)]: the sign counts in the width. *)
Definition Sprintf_06d (n : Z) : string :=
  if (n <? 0)%Z
  then let d := decimal (- n) in "-" +:+ zeros (5 - String.length d) +:+ d
  else let d := decimal n in zeros (6 - String.length d) +:+ d.

(** The file system: root path, then directory name, then file name. *)
Abbreviation Dir := (gmap string string).
Abbreviation FS := (gmap string (gmap string (gmap string string))).

(** [ioutil.ReadDir]: the names of the entries, sorted by file name. *)
Definition ReadDir (fs : FS) (dirname : string) : result (list string) :=
  match fs !! dirname with
  | None => Err (ErrNotExist dirname)
  | Some entries => Ok (merge_sort String.le ((map_to_list entries).*1))
  end.

(** [os.MkdirAll(filepath.Join(root, dir))]: creates what is missing. *)
Definition MkdirAll (fs : FS) (root dir : string) : FS * option error :=
  let entries := default ∅ (fs !! root) in
  match entries !! dir with
  | Some _ => (<[root := entries]> fs, None)
  | None => (<[root := <[dir := ∅]> entries]> fs, None)
  end.

(** [ioutil.WriteFile(filepath.Join(root, dir, filename), content)]: the
    directory has to exist. *)
Definition WriteFile (fs : FS) (root dir filename content : string)
  : FS * option error :=
  match fs !! root with
  | None => (fs, Some (ErrNotExist (root +:+ "/" +:+ dir +:+ "/" +:+ filename)))
  | Some entries =>
      match entries !! dir with
      | None => (fs, Some (ErrNotExist (root +:+ "/" +:+ dir +:+ "/" +:+ filename)))
      | Some files =>
          (<[root := <[dir := <[filename := content]> files]> entries]> fs, None)
      end
  end.

(** [ioutil.ReadFile(filepath.Join(root, dir, filename))]. *)
Definition ReadFile (fs : FS) (root dir filename : string) : result string :=
  let missing := Err (ErrNotExist (root +:+ "/" +:+ dir +:+ "/" +:+ filename)) in
  match fs !! root with
  | None => missing
  | Some entries =>
      match entries !! dir with
      | None => missing
      | Some files =>
          match files !! filename with
          | None => missing
          | Some content => Ok content
          end
      end
  end.

(** What the program takes from [encoding/json], [compress/gzip] and
    [net/url].  [Decoded] is the struct [json.Unmarshal] fills. *)
Record URL : Type := { Scheme : string; URLHost : string }.

Class Lib (Decoded : Type) : Type := {
  json_Unmarshal : string → result Decoded;
  gzip_ReadAll : string → result string;
  url_Parse : string → result URL
}.

End Go.

Import Go.

(** ** [pkg/recorder]: the Record Store *)

Module recorder.

Record Recorder : Type := { RootPath : string }.

(** The interface the proxy handler records through.  [R] is the recorder
    together with whatever it writes to. *)
Class RecorderSaver (R : Type) : Type := {
  SaveRequest : R → Z → string → R * option error;
  SaveResponse : R → Z → string → R * option error;
  SaveSnapshot : R → Z → string → R * option error;
  FormatRequestID : R → Z → string;
  NextRequestID : R → result Z
}.

(** [regexp.MustCompile(`request-(\d{6})`)]: [match_here] matches the
    pattern at the start of the string and yields the capture group. *)
Fixpoint take_digits (n : nat) (s : string) : option string :=
  match n with
  | O => Some ""
  | S n' =>
      match s with
      | "" => None
      | String c s' =>
          if is_digit c
          then match take_digits n' s' with
               | Some d => Some (String c d)
               | None => None
               end
          else None
      end
  end.

Fixpoint strip_prefix (prefix s : string) : option string :=
  match prefix with
  | "" => Some s
  | String p prefix' =>
      match s with
      | "" => None
      | String c s' => if Ascii.eqb c p then strip_prefix prefix' s' else None
      end
  end.

Definition match_here (s : string) : option string :=
  match strip_prefix "request-" s with
  | Some rest => take_digits 6 rest
  | None => None
  end.

(** [requestDirRegex.FindStringSubmatch]: the leftmost match anywhere in
    the string, as the whole match followed by the capture group; no
    match is the empty list. *)
Fixpoint FindStringSubmatch (s : string) : list string :=
  match match_here s with
  | Some d => ["request-" +:+ d; d]
  | None =>
      match s with
      | "" => []
      | String _ s' => FindStringSubmatch s'
      end
  end.

(** The body of the loop of [GetAllRequestIDs]. *)
Fixpoint GetAllRequestIDs_loop (requestDirs : list string) (requestIDs : list Z)
  : result (list Z) :=
  match requestDirs with
  | [] => Ok requestIDs
  | requestDir :: rest =>
      let matches := FindStringSubmatch requestDir in
      if (length matches =? 0)%nat
      then Err (ErrorString ("invalid request directory name "
                             +:+ dquote +:+ requestDir +:+ dquote))
      else
        match Atoi (nth 1 matches "") with
        | Err err => Err err
        | Ok id =>
            GetAllRequestIDs_loop rest
              (if (id =? 0)%Z then requestIDs else requestIDs ++ [id])
        end
  end.

Definition GetAllRequestIDs (r : Recorder) (fs : FS) : result (list Z) :=
  match ReadDir fs (RootPath r) with
  | Err err => Err err
  | Ok requestDirs =>
      if (length requestDirs =? 0)%nat then Ok []
      else GetAllRequestIDs_loop requestDirs []
  end.

Definition NextRequestID_ (r : Recorder) (fs : FS) : result Z :=
  match GetAllRequestIDs r fs with
  | Err err => Err err
  | Ok requestIDs =>
      if (length requestIDs =? 0)%nat then Ok 0%Z
      else Ok (Go.add (List.last requestIDs 0%Z) 1)
  end.

Definition FormatRequestID_ (r : Recorder) (requestID : Z) : string :=
  Sprintf_06d requestID.

Definition requestPath (r : Recorder) (requestID : Z) : string * string :=
  (RootPath r, "request-" +:+ FormatRequestID_ r requestID).

Definition saveFile (r : Recorder) (fs : FS) (requestID : Z)
    (filename content : string) : FS * option error :=
  let '(root, dir) := requestPath r requestID in
  match MkdirAll fs root dir with
  | (fs, Some err) => (fs, Some err)
  | (fs, None) => WriteFile fs root dir filename content
  end.

Definition loadFile (r : Recorder) (fs : FS) (requestID : Z)
    (filename : string) : result string :=
  let '(root, dir) := requestPath r requestID in
  ReadFile fs root dir filename.

Definition SaveRequest_ (r : Recorder) (fs : FS) (requestID : Z) (content : string) :=
  saveFile r fs requestID "request.txt" content.

Definition SaveResponse_ (r : Recorder) (fs : FS) (requestID : Z) (content : string) :=
  saveFile r fs requestID "response.txt" content.

Definition SaveSnapshot_ (r : Recorder) (fs : FS) (requestID : Z) (content : string) :=
  saveFile r fs requestID "snapshot.txt" content.

Definition GetRequest (r : Recorder) (fs : FS) (requestID : Z) : result string :=
  loadFile r fs requestID "request.txt".

Definition GetResponse (r : Recorder) (fs : FS) (requestID : Z) : result string :=
  loadFile r fs requestID "response.txt".

(** Returns Go's pair: [(None, None)] is [nil, nil], no snapshot. *)
Definition MaybeGetSnapshot (r : Recorder) (fs : FS) (requestID : Z)
  : option string * option error :=
  match loadFile r fs requestID "snapshot.txt" with
  | Err err => if IsNotExist err then (None, None) else (None, Some err)
  | Ok snapshot => (Some snapshot, None)
  end.

(** The loop of [GetPriorSnapshot], entered with
    [priorRequestID = Z.of_nat k - 1]: it runs while that is not negative. *)
Fixpoint GetPriorSnapshot_loop (r : Recorder) (fs : FS) (requestID : Z) (k : nat)
  : result string :=
  match k with
  | O => Err (ErrorString ("prior snapshot not found, requestID " +:+ Sprintf_d requestID))
  | S k' =>
      let priorRequestID := Z.of_nat k' in
      match MaybeGetSnapshot r fs priorRequestID with
      | (_, Some err) => Err err
      | (Some snapshot, None) => Ok snapshot
      | (None, None) => GetPriorSnapshot_loop r fs requestID k'
      end
  end.

Definition GetPriorSnapshot (r : Recorder) (fs : FS) (requestID : Z) : result string :=
  if (requestID <=? 0)%Z
  then Err (ErrorString ("invalid request ID, " +:+ Sprintf_d requestID))
  else GetPriorSnapshot_loop r fs requestID (Z.to_nat requestID).

(** [*Recorder] implements [RecorderSaver]: the recorder and the disk. *)
Definition lift_save (save : Recorder → FS → Z → string → FS * option error)
    (s : Recorder * FS) (requestID : Z) (content : string)
  : (Recorder * FS) * option error :=
  let '(fs, err) := save s.1 s.2 requestID content in ((s.1, fs), err).

#[export] Instance Recorder_RecorderSaver : RecorderSaver (Recorder * FS) := {
  SaveRequest := lift_save SaveRequest_;
  SaveResponse := lift_save SaveResponse_;
  SaveSnapshot := lift_save SaveSnapshot_;
  FormatRequestID s := FormatRequestID_ s.1;
  NextRequestID s := NextRequestID_ s.1 s.2
}.

End recorder.

Import recorder.

(** ** [pkg/proxy]: the Interception Handler *)

Module proxy.

Definition OperationType : Type := string.
Definition OperationTypeUnknown : OperationType := "unknown".
Definition OperationTypeQuery : OperationType := "query".
Definition OperationTypeMutation : OperationType := "mutation".

Record RequestInfo : Type := {
  RequestID : Z;
  InfoOperationType : OperationType;
  InfoOperationName : string;
  WillSnapshot : bool;
  ShapshotComplete : bool
}.

(** [Variables] is opaque to the handler: the raw text is kept. *)
Record GraphQLRequest : Type := {
  OperationName : string;
  Variables : string;
  Query : string;
  OperationType_ : OperationType
}.

(** [GraphQLRequest{}]. *)
Definition GraphQLRequest_zero : GraphQLRequest :=
  {| OperationName := ""; Variables := ""; Query := ""; OperationType_ := "" |}.

Record RequestSelector : Type := {
  ShouldRecordRequest : GraphQLRequest → bool;
  ShouldSnapshotRequest : GraphQLRequest → bool
}.

Record Snapshotter : Type := {
  Snapshotter_TakeSnapshot : GraphQLRequest → result string;
  SnapshotInfo : string
}.

(** The observability sink: what has been reported, oldest first. *)
Definition Reporter : Type := list (string * string).
Definition Report (r : Reporter) (label message : string) : Reporter :=
  r ++ [(label, message)].

(** A [*http.Request]: [addr] is the identity of the object, which is what
    keys the correlation map. *)
Record Request : Type := {
  addr : positive;
  Host : string;
  URL_Scheme : string;
  URL_Host : string;
  URL_Path : string;
  Body : option string
}.

(** A response body: what is left to read, and what [Close] returns. *)
Record ReadCloser : Type := {
  unread : string;
  Close : option error
}.

Record Response : Type := {
  Request_ : Request;
  Header_content_encoding : string;
  RespBody : ReadCloser
}.

Record Handler (R : Type) : Type := {
  snapshotter : Snapshotter;
  recorder : R;
  selector : RequestSelector;
  reporter : Reporter;
  requestInfoChan : list RequestInfo;
  host : string;
  proxyOrigin : URL;
  nextRequestID : Z;
  requestContent : gmap positive string
}.
Global Arguments snapshotter {R} _.
Global Arguments recorder {R} _.
Global Arguments selector {R} _.
Global Arguments reporter {R} _.
Global Arguments requestInfoChan {R} _.
Global Arguments host {R} _.
Global Arguments proxyOrigin {R} _.
Global Arguments nextRequestID {R} _.
Global Arguments requestContent {R} _.

Section WithRecorder.
Context {R : Type} `{RecorderSaver R} `{Lib GraphQLRequest}.

Definition with_recorder (h : Handler R) (rec : R) : Handler R :=
  {| snapshotter := snapshotter h; recorder := rec; selector := selector h;
     reporter := reporter h; requestInfoChan := requestInfoChan h;
     host := host h; proxyOrigin := proxyOrigin h;
     nextRequestID := nextRequestID h; requestContent := requestContent h |}.

Definition with_reporter (h : Handler R) (rep : Reporter) : Handler R :=
  {| snapshotter := snapshotter h; recorder := recorder h; selector := selector h;
     reporter := rep; requestInfoChan := requestInfoChan h;
     host := host h; proxyOrigin := proxyOrigin h;
     nextRequestID := nextRequestID h; requestContent := requestContent h |}.

Definition with_nextRequestID (h : Handler R) (n : Z) : Handler R :=
  {| snapshotter := snapshotter h; recorder := recorder h; selector := selector h;
     reporter := reporter h; requestInfoChan := requestInfoChan h;
     host := host h; proxyOrigin := proxyOrigin h;
     nextRequestID := n; requestContent := requestContent h |}.

Definition with_requestContent (h : Handler R) (m : gmap positive string) : Handler R :=
  {| snapshotter := snapshotter h; recorder := recorder h; selector := selector h;
     reporter := reporter h; requestInfoChan := requestInfoChan h;
     host := host h; proxyOrigin := proxyOrigin h;
     nextRequestID := nextRequestID h; requestContent := m |}.

(** [h.requestInfoChan <- info]. *)
Definition send (h : Handler R) (info : RequestInfo) : Handler R :=
  {| snapshotter := snapshotter h; recorder := recorder h; selector := selector h;
     reporter := reporter h; requestInfoChan := requestInfoChan h ++ [info];
     host := host h; proxyOrigin := proxyOrigin h;
     nextRequestID := nextRequestID h; requestContent := requestContent h |}.

Definition log (h : Handler R) (label message : string) : Handler R :=
  with_reporter h (Report (reporter h) label message).

Definition NewHandler (host endpoint : string) (snapshotter : Snapshotter)
    (rec : R) (selector : RequestSelector) (reporter : Reporter)
    (requestInfoChan : list RequestInfo) : result (Handler R) :=
  match url_Parse endpoint with
  | Err err => Err err
  | Ok proxyOrigin =>
      match NextRequestID rec with
      | Err err => Err err
      | Ok nextRequestID =>
          let handler :=
            {| snapshotter := snapshotter; recorder := rec; selector := selector;
               reporter := reporter; requestInfoChan := requestInfoChan;
               host := host; proxyOrigin := proxyOrigin;
               nextRequestID := nextRequestID; requestContent := ∅ |} in
          Ok (if negb (nextRequestID =? 1)%Z
              then log handler "warning"
                     ("existing requests in output dir, next request id: "
                      +:+ Sprintf_d nextRequestID)
              else handler)
      end
  end.

(** The request is rewritten for the upstream and its body buffered; a
    request without a body stores the [nil] content. *)
Definition ProxyDirector (h : Handler R) (req : Request) : Handler R * Request :=
  let content := match Body req with Some b => b | None => "" end in
  let req :=
    {| addr := addr req; Host := host h;
       URL_Scheme := Scheme (proxyOrigin h); URL_Host := URLHost (proxyOrigin h);
       URL_Path := URL_Path req;
       Body := match Body req with Some _ => Some content | None => None end |} in
  (with_requestContent h (<[addr req := content]> (requestContent h)), req).

Definition ParseRequest (content : string) : result GraphQLRequest :=
  match json_Unmarshal content with
  | Err err => Err err
  | Ok graphQLRequest =>
      let operationType :=
        if HasPrefix (Query graphQLRequest) "query" then OperationTypeQuery
        else if HasPrefix (Query graphQLRequest) "mutation" then OperationTypeMutation
        else OperationTypeUnknown in
      Ok {| OperationName := OperationName graphQLRequest;
            Variables := Variables graphQLRequest;
            Query := Query graphQLRequest;
            OperationType_ := operationType |}
  end.

(** The body is read to its end; a failing [Close] or a failing
    decompression leaves it consumed, otherwise it is replaced by a
    fresh reader over the original bytes. *)
Definition readAndResetResponseContent (resp : Response) : Response * result string :=
  let original := unread (RespBody resp) in
  let consumed :=
    {| Request_ := Request_ resp;
       Header_content_encoding := Header_content_encoding resp;
       RespBody := {| unread := ""; Close := Close (RespBody resp) |} |} in
  match Close (RespBody resp) with
  | Some err => (consumed, Err err)
  | None =>
      let reset :=
        {| Request_ := Request_ resp;
           Header_content_encoding := Header_content_encoding resp;
           RespBody := {| unread := original; Close := None |} |} in
      if String.eqb (Header_content_encoding resp) "gzip"
      then match gzip_ReadAll original with
           | Err err => (consumed, Err err)
           | Ok content => (reset, Ok content)
           end
      else (reset, Ok original)
  end.

Definition TakeSnapshot (requestID : Z) (graphQLRequest : GraphQLRequest)
    (snapshotter : Snapshotter) (rec : R) (reporter : Reporter)
  : R * Reporter * option error :=
  let reporter :=
    Report reporter "" ("taking a snapshot, " +:+ SnapshotInfo snapshotter +:+ "...") in
  match Snapshotter_TakeSnapshot snapshotter graphQLRequest with
  | Err err => (rec, Report reporter "error" (Error err), Some err)
  | Ok snapshot =>
      let reporter := Report reporter "" "...done" in
      let '(rec, _) := SaveSnapshot rec requestID snapshot in
      (rec, reporter, None)
  end.

Definition ProxyResponseHandler (h : Handler R) (resp : Response)
  : Handler R * Response * option error :=
  let path := URL_Path (Request_ resp) in
  if negb (Contains path "/backend-graphql/") then (h, resp, None)
  else
    let requestContent_ := default "" (requestContent h !! addr (Request_ resp)) in
    let h := with_requestContent h (delete (addr (Request_ resp)) (requestContent h)) in
    if String.eqb requestContent_ ""
    then (log h "warning" ("no request content, " +:+ path), resp, None)
    else
      match ParseRequest requestContent_ with
      | Err err => (with_reporter h (Report (reporter h) "error" (Error err)), resp, None)
      | Ok graphQLRequest =>
          if negb (ShouldRecordRequest (selector h) graphQLRequest)
          then (h, resp, None)
          else
            match readAndResetResponseContent resp with
            | (resp, Err _) => (log h "error" "could not read response", resp, None)
            | (resp, Ok responseContent) =>
                let currentRequestID := nextRequestID h in
                let h := with_nextRequestID h (Go.add (nextRequestID h) 1) in
                let shouldSnapshot := ShouldSnapshotRequest (selector h) graphQLRequest in
                let h :=
                  send h {| RequestID := currentRequestID;
                            InfoOperationType := OperationType_ graphQLRequest;
                            InfoOperationName := OperationName graphQLRequest;
                            WillSnapshot := shouldSnapshot;
                            ShapshotComplete := false |} in
                let h := with_recorder h (SaveRequest (recorder h) currentRequestID requestContent_).1 in
                let h := with_recorder h (SaveResponse (recorder h) currentRequestID responseContent).1 in
                let h :=
                  log h (OperationType_ graphQLRequest)
                    (FormatRequestID (recorder h) currentRequestID
                     +:+ " " +:+ OperationName graphQLRequest) in
                if shouldSnapshot
                then
                  let '(rec, rep, err) :=
                    TakeSnapshot currentRequestID graphQLRequest
                      (snapshotter h) (recorder h) (reporter h) in
                  let h := with_reporter (with_recorder h rec) rep in
                  let h :=
                    send h {| RequestID := currentRequestID;
                              InfoOperationType := OperationType_ graphQLRequest;
                              InfoOperationName := OperationName graphQLRequest;
                              WillSnapshot := shouldSnapshot;
                              ShapshotComplete :=
                                match err with None => true | Some _ => false end |} in
                  (h, resp, None)
                else (h, resp, None)
            end
      end.

(** [httputil.ReverseProxy.ServeHTTP] with the director and the response
    hook of the handler: the outgoing request goes through
    [ProxyDirector], and the response of the transport, when there is
    one, through [ProxyResponseHandler]. *)
Definition ServeHTTP (h : Handler R) (RoundTrip : Request → result Response)
    (r : Request) : Handler R * result Response :=
  let '(h, outreq) := ProxyDirector h r in
  match RoundTrip outreq with
  | Err err => (h, Err err)
  | Ok resp =>
      match ProxyResponseHandler h resp with
      | (h, _, Some err) => (h, Err err)
      | (h, resp, None) => (h, Ok resp)
      end
  end.

End WithRecorder.

End proxy.

Import proxy.

(** ** Sequences of calls to the handler

    The reverse proxy calls [ProxyDirector] when a request arrives and
    [ProxyResponseHandler] when its response does; the two kinds of call
    of different exchanges interleave.  [run] is the handler after a
    sequence of such calls. *)

Module session.


Section WithRecorder.
Context {R : Type} `{RecorderSaver R} `{Lib GraphQLRequest}.



End WithRecorder.

End session.

(** ** [pkg/server]: start-up *)

Module server.

Record Server : Type := {
  snapshotter : Snapshotter;
  selector : RequestSelector;
  recorder : Recorder;
  reporter : Reporter
}.

Definition with_reporter (s : Server) (rep : Reporter) : Server :=
  {| snapshotter := snapshotter s; selector := selector s;
     recorder := recorder s; reporter := rep |}.

Definition takeSnapshot (s : Server) (fs : FS) (requestID : Z)
    (graphQLRequest : GraphQLRequest) : Server * FS * option error :=
  let s :=
    with_reporter s
      (Report (reporter s) ""
         ("taking a snapshot, " +:+ SnapshotInfo (snapshotter s) +:+ "...")) in
  match Snapshotter_TakeSnapshot (snapshotter s) graphQLRequest with
  | Err err => (s, fs, Some err)
  | Ok snapshot =>
      let s := with_reporter s (Report (reporter s) "" "...done") in
      let '(fs, _) := SaveSnapshot_ (recorder s) fs requestID snapshot in
      (s, fs, None)
  end.

Definition takeInitialSnapshotIfNeeded (s : Server) (fs : FS)
  : Server * FS * option error :=
  match NextRequestID_ (recorder s) fs with
  | Err err => (s, fs, Some err)
  | Ok nextRequestID =>
      if negb (nextRequestID =? 0)%Z then (s, fs, None)
      else takeSnapshot s fs 0 GraphQLRequest_zero
  end.

(** [ListenAndServe] up to the point where the two listeners start: the
    proxy handler is built, then the bootstrap snapshot is taken.  The
    handler reports to the sink of the server and records to the same
    disk. *)
Definition ListenAndServe `{Lib GraphQLRequest} (s : Server) (fs : FS)
  : result (Handler (Recorder * FS)) :=
  match NewHandler "127.0.0.1:7081" "http://127.0.0.1:8081"
          (snapshotter s) (recorder s, fs) (selector s) (reporter s) [] with
  | Err err => Err err
  | Ok proxyHandler =>
      match takeInitialSnapshotIfNeeded
              (with_reporter s (proxy.reporter proxyHandler)) fs with
      | (_, _, Some err) => Err err
      | (s, fs, None) =>
          Ok (proxy.with_recorder
                (proxy.with_reporter proxyHandler (reporter s))
                (recorder s, fs))
      end
  end.

End server.

(** ** [pkg/tool]: the state sent to a viewer that connects *)

Module tool.

Section WithLib.
Context `{Lib GraphQLRequest}.

(** The loop of [_getAllRequestInfo]. *)
Fixpoint _getAllRequestInfo_loop (rec : Recorder) (fs : FS)
    (requestIDs : list Z) (records : list RequestInfo)
  : result (list RequestInfo) :=
  match requestIDs with
  | [] => Ok records
  | requestID :: rest =>
      match GetRequest rec fs requestID with
      | Err err => Err err
      | Ok request =>
          match ParseRequest request with
          | Err err => Err err
          | Ok graphQLRequest =>
              match MaybeGetSnapshot rec fs requestID with
              | (_, Some err) => Err err
              | (snapshot, None) =>
                  _getAllRequestInfo_loop rec fs rest
                    (records ++
                     [{| RequestID := requestID;
                         InfoOperationType := OperationType_ graphQLRequest;
                         InfoOperationName := OperationName graphQLRequest;
                         WillSnapshot := bool_decide (snapshot ≠ None);
                         ShapshotComplete := bool_decide (snapshot ≠ None) |}])
              end
          end
      end
  end.

Definition _getAllRequestInfo (rec : Recorder) (fs : FS) : result (list RequestInfo) :=
  match GetAllRequestIDs rec fs with
  | Err err => Err err
  | Ok requestIDs => _getAllRequestInfo_loop rec fs requestIDs []
  end.

(** The record served by the [/request] route. *)
Record Record_ : Type := {
  Record_RequestID : Z;
  Record_OperationType : OperationType;
  Record_OperationName : string;
  Record_Request : string;
  Record_Response : string;
  CurrentSnapshot : string;
  PriorSnapshot : string
}.

(** The errors of [_getRequestRecord]: those built with
    [fmt.Errorf("%w, ...", BadRequest)], which [errors.Is] recognises, and
    the errors of the recorder and of the parser, passed on as they are. *)
Inductive LookupError : Type :=
| BadRequest (detail : string)
| Failed (err : error).

Definition Is_BadRequest (err : LookupError) : bool :=
  match err with
  | BadRequest _ => true
  | Failed _ => false
  end.

(** [requestIDString] is [r.URL.Query().Get("id")]: empty when the
    parameter is missing. *)
Definition _getRequestRecord (rec : Recorder) (fs : FS) (requestIDString : string)
  : Record_ + LookupError :=
  if String.eqb requestIDString "" then inr (BadRequest "no id query param")
  else
    match Atoi requestIDString with
    | Err _ =>
        inr (BadRequest ("invalid request id " +:+ dquote +:+ requestIDString +:+ dquote))
    | Ok requestID =>
        if (requestID =? 0)%Z
        then inr (BadRequest ("invalid request id " +:+ Sprintf_d requestID))
        else
          match GetRequest rec fs requestID with
          | Err err => inr (Failed err)
          | Ok request =>
              match ParseRequest request with
              | Err err => inr (Failed err)
              | Ok graphQLRequest =>
                  match GetResponse rec fs requestID with
                  | Err err => inr (Failed err)
                  | Ok response =>
                      match MaybeGetSnapshot rec fs requestID with
                      | (_, Some err) => inr (Failed err)
                      | (snapshot, None) =>
                          match GetPriorSnapshot rec fs requestID with
                          | Err err => inr (Failed err)
                          | Ok priorSnapshot =>
                              let '(snapshot, priorSnapshot) :=
                                match snapshot with
                                | None => (priorSnapshot, "")
                                | Some own => (own, priorSnapshot)
                                end in
                              inl {| Record_RequestID := requestID;
                                     Record_OperationType := OperationType_ graphQLRequest;
                                     Record_OperationName := OperationName graphQLRequest;
                                     Record_Request := request;
                                     Record_Response := response;
                                     CurrentSnapshot := snapshot;
                                     PriorSnapshot := priorSnapshot |}
                          end
                      end
                  end
              end
          end
    end.

(** [getRequestRecord]: the status written, and the record that is
    marshalled into the body when there is one. *)
Definition getRequestRecord (rec : Recorder) (fs : FS) (requestIDString : string)
  : nat * option Record_ :=
  match _getRequestRecord rec fs requestIDString with
  | inr err => if Is_BadRequest err then (400%nat, None) else (500%nat, None)
  | inl record => (200%nat, Some record)
  end.

End WithLib.

(** *** The web socket side

    A message is its [type] tag and its data.  A connection is what has
    been written to it so far and how many more writes its peer will take:
    [None] when it never breaks.  The handler is its set of registered
    connections, keyed by the identity of the connection. *)
Inductive MessageData : Type :=
| InitData (records : list RequestInfo)
| RecordData (info : RequestInfo).

Record WebsocketMessage : Type := {
  Type_ : string;
  Data : MessageData
}.

Record Conn : Type := {
  written : list WebsocketMessage;
  writes_left : option nat
}.

(** [conn.WriteMessage(websocket.TextMessage, data)]. *)
Definition WriteMessage (conn : Conn) (message : WebsocketMessage)
  : Conn * option error :=
  match writes_left conn with
  | Some O => (conn, Some (ErrorString "write: broken pipe"))
  | Some (S k) =>
      ({| written := written conn ++ [message]; writes_left := Some k |}, None)
  | None =>
      ({| written := written conn ++ [message]; writes_left := None |}, None)
  end.

Record Handler : Type := {
  recorder : Recorder;
  connections : gmap positive Conn
}.

(** One turn of the loop of the worker started by
    [NewHandlerAndStartWebsocketWorker]: the value received from the
    channel is written to every registered connection, and a connection
    whose write fails is deleted. *)
Definition forward (h : Handler) (v : RequestInfo) : Handler :=
  let message := {| Type_ := "record"; Data := RecordData v |} in
  {| recorder := recorder h;
     connections :=
       omap (λ conn,
               match WriteMessage conn message with
               | (conn, None) => Some conn
               | (_, Some _) => None
               end) (connections h) |}.

(** The worker over the values sent on the channel, in order. *)
Definition worker (h : Handler) (requestInfoChan : list RequestInfo) : Handler :=
  foldl forward h requestInfoChan.

Section Websocket.
Context `{Lib GraphQLRequest}.

(** [websocketHandler] up to the point where it starts to read: [upgrade]
    is the outcome of [h.upgrader.Upgrade], a connection and its
    identity.  The result is the handler and the connection as the call
    leaves it. *)
Definition websocketHandler (h : Handler) (fs : FS)
    (upgrade : result (positive * Conn)) : Handler * option Conn :=
  match upgrade with
  | Err _ => (h, None)
  | Ok (c, conn) =>
      match _getAllRequestInfo (recorder h) fs with
      | Err _ => (h, Some conn)
      | Ok records =>
          let message := {| Type_ := "init"; Data := InitData records |} in
          match WriteMessage conn message with
          | (conn, Some _) => (h, Some conn)
          | (conn, None) =>
              ({| recorder := recorder h;
                  connections := <[c := conn]> (connections h) |}, Some conn)
          end
      end
  end.

(** The end of [websocketHandler]: [ReadMessage] has failed, the
    connection is deleted. *)
Definition websocketHandler_closed (h : Handler) (c : positive) : Handler :=
  {| recorder := recorder h; connections := delete c (connections h) |}.

End Websocket.

End tool.

(** ** [static/index.js]: the list of requests in the page

    The page keeps one [Item] per request it has been told of, in the
    order in which they were added ([items.push]); the list element shows
    them newest first ([list.prepend]).  A [RecordInfo] is the JSON of a
    [proxy.RequestInfo]. *)

Module index_js.

Record Item : Type := {
  _recordInfo : RequestInfo;
  _selected : bool
}.

(** [new Item(recordInfo, clickCallback)]. *)
Definition Item_new (recordInfo : RequestInfo) : Item :=
  {| _recordInfo := recordInfo; _selected := false |}.

Definition updateInfo (item : Item) (recordInfo : RequestInfo) : Item :=
  {| _recordInfo := recordInfo; _selected := _selected item |}.

Definition setSelected (item : Item) (selected : bool) : Item :=
  {| _recordInfo := _recordInfo item; _selected := selected |}.

Definition id (item : Item) : Z := RequestID (_recordInfo item).

Definition _class (item : Item) : string :=
  "c-request-list--item" +:+ (if _selected item then " x--selected" else "").

(** The status class and the letter of [_innerHTML]. *)
Definition statusClass (info : RequestInfo) : string :=
  let statusClass := "x--no-status" in
  let statusClass :=
    if WillSnapshot info && ShapshotComplete info
    then "x--status-complete" else statusClass in
  let statusClass :=
    if WillSnapshot info && negb (ShapshotComplete info)
    then "x--status-pending" else statusClass in
  statusClass.

Definition operationTypeName (info : RequestInfo) : string :=
  if String.eqb (InfoOperationType info) "mutation" then "M" else "Q".

Definition addItem (items : list Item) (recordInfo : RequestInfo) : list Item :=
  items ++ [Item_new recordInfo].

(** Every item of the identifier is updated; an item is added when there
    was none. *)
Definition handleRecord (items : list Item) (recordInfo : RequestInfo) : list Item :=
  let found := existsb (λ item, (id item =? RequestID recordInfo)%Z) items in
  let items :=
    map (λ item,
           if (id item =? RequestID recordInfo)%Z
           then updateInfo item recordInfo else item) items in
  if found then items else addItem items recordInfo.

(** The listener of the socket.  A message whose data does not have the
    shape of its type is not produced by the server and changes nothing.
    An initial list without entries is sent as [null]: [forEach] then
    throws inside the listener and the items are left as they were, which
    is also what an empty array gives. *)
Definition onMessage (items : list Item) (message : tool.WebsocketMessage) : list Item :=
  if String.eqb (tool.Type_ message) "init"
  then match tool.Data message with
       | tool.InitData records => foldl addItem items records
       | tool.RecordData _ => items
       end
  else if String.eqb (tool.Type_ message) "record"
  then match tool.Data message with
       | tool.RecordData info => handleRecord items info
       | tool.InitData _ => items
       end
  else items.

Definition clearAllSelections (items : list Item) : list Item :=
  map (λ item, setSelected item false) items.

(** A click on the [k]-th item: the callback clears every selection, then
    the item selects itself. *)
Definition click (items : list Item) (k : nat) : list Item :=
  let items := clearAllSelections items in
  match items !! k with
  | Some item => <[k := setSelected item true]> items
  | None => items
  end.

(** What happens to the page: a message arrives or an item is clicked. *)
Inductive UIEvent : Type :=
| Message (message : tool.WebsocketMessage)
| Click (k : nat).

Definition ui_step (items : list Item) (ev : UIEvent) : list Item :=
  match ev with
  | Message message => onMessage items message
  | Click k => click items k
  end.

End index_js.

(** ** The collaborators of [handler_test.go] and of [cmd/proxyrecorder] *)

Module fixtures.

(** [testRequestSelector]. *)
Definition testRequestSelector : RequestSelector :=
  {| ShouldRecordRequest r := String.eqb (OperationName r) "operationToRecord";
     ShouldSnapshotRequest r := String.eqb (OperationType_ r) OperationTypeMutation |}.

(** [RequestSelector] of [main.go]. *)
Definition mainRequestSelector : RequestSelector :=
  {| ShouldRecordRequest _ := true;
     ShouldSnapshotRequest r := String.eqb (OperationType_ r) OperationTypeMutation |}.

(** [testSnapshotter]: the error, when set, is what the caller sees. *)
Definition testSnapshotter (snapshotContent : string) (snapshotError : option error)
    (snapshotInfo : string) : Snapshotter :=
  {| Snapshotter_TakeSnapshot _ :=
       match snapshotError with
       | Some err => Err err
       | None => Ok snapshotContent
       end;
     SnapshotInfo := snapshotInfo |}.

(** [testRequestRecorder]: every write is appended to [records]. *)
Record requestRecord : Type := {
  recordType : string;
  requestID : Z;
  content : string
}.

Definition testRequestRecorder : Type := list requestRecord.

#[export] Instance testRequestRecorder_RecorderSaver : RecorderSaver testRequestRecorder := {
  SaveRequest r id c := (r ++ [{| recordType := "request"; requestID := id; content := c |}], None);
  SaveResponse r id c := (r ++ [{| recordType := "response"; requestID := id; content := c |}], None);
  SaveSnapshot r id c := (r ++ [{| recordType := "snapshot"; requestID := id; content := c |}], None);
  FormatRequestID _ id := Sprintf_06d id;
  NextRequestID _ := Ok 1%Z
}.

(** A recorder over a store that refuses every write, as a read-only
    directory does: nothing is kept and each save returns an error. *)
Inductive readOnlyRecorder : Type := ReadOnly.

#[export] Instance readOnlyRecorder_RecorderSaver : RecorderSaver readOnlyRecorder := {
  SaveRequest r _ _ := (r, Some (ErrorString "mkdir: permission denied"));
  SaveResponse r _ _ := (r, Some (ErrorString "mkdir: permission denied"));
  SaveSnapshot r _ _ := (r, Some (ErrorString "mkdir: permission denied"));
  FormatRequestID _ id := Sprintf_06d id;
  NextRequestID _ := Ok 1%Z
}.

(** The request payloads of [handler_test.go]. *)
Definition q (s : string) : string := dquote +:+ s +:+ dquote.

Definition payload (operationName query : string) : string :=
  "{" +:+ q "operationName" +:+ ": " +:+ q operationName +:+ ", "
      +:+ q "query" +:+ ": " +:+ q query +:+ "}".

Definition queryToRecord : string :=
  payload "operationToRecord" "query operationToRecord { someQuery }".
Definition mutationToRecord : string :=
  payload "operationToRecord" "mutation operationToRecord { someMutation }".
Definition someOperation : string :=
  payload "someOperation" "query someOperation { field }".

(** [json.Unmarshal] on those payloads (anything else is refused), no
    decompression, and [url.Parse] on the upstream of [server.go]. *)
Definition decode (content : string) : result GraphQLRequest :=
  let decoded name query :=
    Ok {| OperationName := name; Variables := ""; Query := query; OperationType_ := "" |} in
  if String.eqb content queryToRecord
  then decoded "operationToRecord" "query operationToRecord { someQuery }"
  else if String.eqb content mutationToRecord
  then decoded "operationToRecord" "mutation operationToRecord { someMutation }"
  else if String.eqb content someOperation
  then decoded "someOperation" "query someOperation { field }"
  else Err (ErrorString "invalid character looking for beginning of value").

#[export] Instance testLib : Lib GraphQLRequest := {
  json_Unmarshal := decode;
  gzip_ReadAll _ := Err (ErrorString "gzip: invalid header");
  url_Parse endpoint :=
    if String.eqb endpoint "http://127.0.0.1:8081"
    then Ok {| Scheme := "http"; URLHost := "127.0.0.1:8081" |}
    else Err (ErrorString "parse: invalid URI")
}.

Definition out : Recorder := {| RootPath := "output" |}.

(** The store directory as [main.go] leaves it before the first run:
    created and empty. *)
Definition emptyStore : FS := {[ "output" := ∅ ]}.

Definition request (a : positive) (path : string) (body : option string) : Request :=
  {| addr := a; Host := "www.khanacademy.org"; URL_Scheme := "http";
     URL_Host := "www.khanacademy.org"; URL_Path := path; Body := body |}.

Definition response (req : Request) (body : string) : Response :=
  {| Request_ := req; Header_content_encoding := "";
     RespBody := {| unread := body; Close := None |} |}.

(** The upstream of the tests: every request is answered with [body]. *)
Definition origin (body : string) (req : Request) : result Response :=
  Ok (response req body).

(** One exchange against that upstream; the handler afterwards. *)
Definition serve {R : Type} `{RecorderSaver R} (h : Handler R) (a : positive)
    (path : string) (body : option string) : Handler R :=
  (ServeHTTP h (origin "some content from the origin") (request a path body)).1.

Definition graphqlPath : string := "/api/internal/_mt/backend-graphql/operationToRecord".

(** The handler of the test suite, as [BeforeTest] builds it. *)
Definition testHandler : Handler testRequestRecorder :=
  {| proxy.snapshotter := testSnapshotter "snapshot" None "(snapshot description)";
     proxy.recorder := [];
     proxy.selector := testRequestSelector;
     proxy.reporter := [];
     requestInfoChan := [];
     host := "https://en.khanacademy.org";
     proxyOrigin := {| Scheme := "http"; URLHost := "127.0.0.1:8081" |};
     nextRequestID := 1;
     requestContent := ∅ |}.

(** The server of [main.go] over the store directory [output]. *)
Definition mainServer (snapshotter : Snapshotter) : server.Server :=
  {| server.snapshotter := snapshotter;
     server.selector := mainRequestSelector;
     server.recorder := out;
     server.reporter := [] |}.

(** A store with the bootstrap snapshot and a snapshot for record 2. *)
Definition snapshotStore : FS :=
  {[ "output" :=
       {[ "request-000000" := {[ "snapshot.txt" := "bootstrap" ]};
          "request-000001" := {[ "request.txt" := queryToRecord;
                                 "response.txt" := "one" ]};
          "request-000002" := {[ "request.txt" := mutationToRecord;
                                 "response.txt" := "two";
                                 "snapshot.txt" := "after two" ]};
          "request-000003" := {[ "request.txt" := queryToRecord;
                                 "response.txt" := "three" ]} ]} ]}.

(** The handler of the tests holding the buffered request of an operation
    the policy rejects. *)
Definition rejectedExchange : Handler testRequestRecorder * Response :=
  let '(h, req) :=
    ProxyDirector testHandler (request 1%positive graphqlPath (Some someOperation)) in
  (h, response req "some content from the origin").

(** A store root with one record and a stray file. *)
Definition strayStore : FS :=
  {[ "output" := {[ "request-000001" := ∅; "notes.txt" := ∅ ]} ]}.

(** A handler over the read-only store, holding the buffered request of
    an operation the policy accepts. *)
Definition readOnlyExchange : Handler readOnlyRecorder * Response :=
  let h :=
    {| proxy.snapshotter := testSnapshotter "snapshot" None "(snapshot description)";
       proxy.recorder := ReadOnly;
       proxy.selector := testRequestSelector;
       proxy.reporter := [];
       requestInfoChan := [];
       host := "https://en.khanacademy.org";
       proxyOrigin := {| Scheme := "http"; URLHost := "127.0.0.1:8081" |};
       nextRequestID := 1;
       requestContent := ∅ |} in
  let '(h, req) :=
    ProxyDirector h (request 1%positive graphqlPath (Some queryToRecord)) in
  (h, response req "some content from the origin").

(** The store after a successful bootstrap, and over it a handler whose
    Snapshot Provider fails, holding the buffered request of a mutation
    the policy accepts. *)
Definition bootstrapStore : FS :=
  {[ "output" := {[ "request-000000" := {[ "snapshot.txt" := "bootstrap" ]} ]} ]}.

Definition failingSnapshotExchange : Handler (Recorder * FS) * Response :=
  let h :=
    {| proxy.snapshotter :=
         testSnapshotter "" (Some (ErrorString "exit status 1")) "(snapshot description)";
       proxy.recorder := (out, bootstrapStore);
       proxy.selector := testRequestSelector;
       proxy.reporter := [];
       requestInfoChan := [];
       host := "127.0.0.1:7081";
       proxyOrigin := {| Scheme := "http"; URLHost := "127.0.0.1:8081" |};
       nextRequestID := 1;
       requestContent := ∅ |} in
  let '(h, req) :=
    ProxyDirector h (request 1%positive graphqlPath (Some mutationToRecord)) in
  (h, response req "some content from the origin").

(** A handler over the store after the bootstrap whose Snapshot Provider
    succeeds, and with it the buffered request of a mutation and of a
    query the policy accepts. *)
Definition storeHandler : Handler (Recorder * FS) :=
  {| proxy.snapshotter := testSnapshotter "snapshot" None "(snapshot description)";
     proxy.recorder := (out, bootstrapStore);
     proxy.selector := testRequestSelector;
     proxy.reporter := [];
     requestInfoChan := [];
     host := "127.0.0.1:7081";
     proxyOrigin := {| Scheme := "http"; URLHost := "127.0.0.1:8081" |};
     nextRequestID := 1;
     requestContent := ∅ |}.

Definition snapshotExchange : Handler (Recorder * FS) * Response :=
  let '(h, req) :=
    ProxyDirector storeHandler (request 1%positive graphqlPath (Some mutationToRecord)) in
  (h, response req "some content from the origin").

Definition queryExchange : Handler (Recorder * FS) * Response :=
  let '(h, req) :=
    ProxyDirector storeHandler (request 1%positive graphqlPath (Some queryToRecord)) in
  (h, response req "some content from the origin").


(** The tool over the store directory, and two viewers: one that stays
    connected and one whose peer is gone. *)
Definition toolHandler : tool.Handler :=
  {| tool.recorder := out; tool.connections := ∅ |}.

Definition viewer : tool.Conn := {| tool.written := []; tool.writes_left := None |}.

Definition goneViewer : tool.Conn :=
  {| tool.written := []; tool.writes_left := Some 0%nat |}.

Definition mutationDecoded : GraphQLRequest :=
  {| OperationName := "operationToRecord"; Variables := "";
     Query := "mutation operationToRecord { someMutation }";
     OperationType_ := "mutation" |}.

Definition queryDecoded : GraphQLRequest :=
  {| OperationName := "operationToRecord"; Variables := "";
     Query := "query operationToRecord { someQuery }";
     OperationType_ := "query" |}.

(** A store root in which a record directory was renamed by hand: the
    name still contains the pattern and sorts before the records. *)
Definition foreignStore : FS :=
  {[ "output" := {[ "old-request-000002" := ∅; "request-000001" := ∅ ]} ]}.

Definition foreignRecordsStore : FS :=
  {[ "output" :=
       {[ "old-request-000002" := {[ "request.txt" := mutationToRecord ]};
          "request-000001" := {[ "request.txt" := queryToRecord;
                                 "response.txt" := "one" ]};
          "request-000002" := {[ "request.txt" := mutationToRecord;
                                 "response.txt" := "two";
                                 "snapshot.txt" := "after two" ]} ]} ]}.

End fixtures.

(** ** Specification vocabulary *)

Module spec.

(** The snapshot file of an identifier, read off the file system. *)
Definition snapshot_file (r : Recorder) (fs : FS) (id : Z) : option string :=
  match fs !! RootPath r with
  | None => None
  | Some entries =>
      match entries !! ("request-" +:+ Sprintf_06d id) with
      | None => None
      | Some files => files !! "snapshot.txt"
      end
  end.

Fixpoint all_digits (s : string) : bool :=
  match s with
  | "" => true
  | String c s' => is_digit c && all_digits s'
  end.

(** A name matches the pattern of the store when it contains [request-]
    followed by six decimal digits. *)
Definition matches_pattern (name : string) : Prop :=
  ∃ pre d suf,
    name = pre +:+ "request-" +:+ d +:+ suf ∧ String.length d = 6%nat ∧ all_digits d = true.

(** A name is in the layout the store writes when it is exactly
    [request-] followed by six decimal digits. *)
Definition is_canonical (name : string) : bool :=
  match strip_prefix "request-" name with
  | Some d => (String.length d =? 6)%nat && all_digits d
  | None => false
  end.

Definition canonical_store (r : Recorder) (fs : FS) : Prop :=
  ∀ entries, fs !! RootPath r = Some entries →
    map_Forall (λ name _, is_canonical name = true) entries.

Definition max_ids (ids : list Z) : Z := foldr Z.max 0%Z ids.

(** The number a name in the layout of the store stands for. *)
Definition canonical_id (name : string) : Z :=
  match strip_prefix "request-" name with
  | Some d => default 0%Z (digits_value 0 d)
  | None => 0%Z
  end.

(** The conditions under which [ProxyResponseHandler] reaches the point
    where an identifier is allocated: the path carries the marker, request
    bytes [c] were buffered, they parse to [q], the Selection Policy
    accepts [q], and the response body reads as [body]. *)
Definition accepted {R} `{Lib GraphQLRequest} (h : Handler R) (resp : Response)
    (c : string) (q : GraphQLRequest) (body : string) : Prop :=
  Contains (URL_Path (Request_ resp)) "/backend-graphql/" = true ∧
  requestContent h !! addr (Request_ resp) = Some c ∧
  c ≠ "" ∧
  ParseRequest c = Ok q ∧
  ShouldRecordRequest (selector h) q = true ∧
  (readAndResetResponseContent resp).2 = Ok body.

(** The identifier [GetAllRequestIDs] reads off a name that matches. *)
Definition name_id (name : string) : Z :=
  match FindStringSubmatch name with
  | [_; d] => default 0%Z (digits_value 0 d)
  | _ => 0%Z
  end.

(** The names [ReadDir] returns for a directory. *)
Definition dir_names (entries : gmap string (gmap string string)) : list string :=
  merge_sort String.le ((map_to_list entries).*1).

(** The peer of a connection takes at least [n] more writes. *)
Definition takes (conn : tool.Conn) (n : nat) : Prop :=
  match tool.writes_left conn with
  | None => True
  | Some k => (n ≤ k)%nat
  end.

(** The message the worker writes for a Lifecycle Event. *)
Definition record_message (v : RequestInfo) : tool.WebsocketMessage :=
  {| tool.Type_ := "record"; tool.Data := tool.RecordData v |}.

Definition init_message (records : list RequestInfo) : tool.WebsocketMessage :=
  {| tool.Type_ := "init"; tool.Data := tool.InitData records |}.

(** The last of the events [vs] about identifier [j], or [d] when there is
    none. *)
Definition latest (vs : list RequestInfo) (d : RequestInfo) (j : Z) : RequestInfo :=
  default d (last (filter (λ v, RequestID v = j) vs)).

(** The content of a file, read off the file system. *)
Definition file_at (fs : FS) (root dir filename : string) : option string :=
  match fs !! root with
  | None => None
  | Some entries =>
      match entries !! dir with
      | None => None
      | Some files => files !! filename
      end
  end.

(** The Lifecycle Event of identifier [id] for the operation [q]. *)
Definition event (id : Z) (q : GraphQLRequest) (will complete : bool) : RequestInfo :=
  {| RequestID := id;
     InfoOperationType := OperationType_ q;
     InfoOperationName := OperationName q;
     WillSnapshot := will;
     ShapshotComplete := complete |}.

End spec.

Import spec.
Import fixtures.

(** * Properties *)

(** ** Decimal digits and the directory pattern *)

Section Digits.

Local Open Scope Z_scope.

Lemma digit_value_range c d : digit_value c = Some d → 0 ≤ d ≤ 9.
Proof.
  unfold digit_value. intros Hd.
  destruct (48 <=? Z.of_N (N_of_ascii c)) eqn:Hlo; simpl in Hd; [|discriminate].
  destruct (Z.of_N (N_of_ascii c) <=? 57) eqn:Hhi; simpl in Hd; [|discriminate].
  inversion Hd; subst. lia.
Qed.

Lemma digits_value_shift s : ∀ acc,
  digits_value acc s =
  match digits_value 0 s with
  | Some v => Some (acc * 10 ^ Z.of_nat (String.length s) + v)
  | None => None
  end.
Proof.
  induction s as [|c s IH]; intros acc; simpl.
  - f_equal. lia.
  - destruct (digit_value c) as [d|]; [|done].
    rewrite (IH (acc * 10 + d)), (IH (0 * 10 + d)).
    destruct (digits_value 0 s) as [w|]; [|done].
    f_equal. rewrite Nat2Z.inj_succ, Z.pow_succ_r by lia. lia.
Qed.

Lemma digits_value_acc s acc v :
  digits_value 0 s = Some v →
  digits_value acc s = Some (acc * 10 ^ Z.of_nat (String.length s) + v).
Proof. intros Hv. by rewrite digits_value_shift, Hv. Qed.

Lemma all_digits_value s :
  all_digits s = true →
  ∃ v, digits_value 0 s = Some v ∧ 0 ≤ v < 10 ^ Z.of_nat (String.length s).
Proof.
  induction s as [|c s IH]; simpl; intros Hs.
  - exists 0. split; [done|lia].
  - apply andb_true_iff in Hs as [Hc Hs]. unfold is_digit in Hc.
    destruct (digit_value c) as [d|] eqn:Hd; [|discriminate].
    destruct (IH Hs) as (v & Hv & Hr).
    exists (d * 10 ^ Z.of_nat (String.length s) + v). split.
    + rewrite (digits_value_acc _ _ _ Hv). f_equal; lia.
    + apply digit_value_range in Hd.
      rewrite Nat2Z.inj_succ, Z.pow_succ_r by lia. nia.
Qed.

Lemma take_digits_spec n : ∀ s d,
  take_digits n s = Some d →
  String.length d = n ∧ all_digits d = true ∧ ∃ suf, s = d +:+ suf.
Proof.
  induction n as [|n IH]; intros s d Hd; simpl in Hd.
  - inversion Hd; subst. repeat split. by exists s.
  - destruct s as [|c s]; [discriminate|].
    destruct (is_digit c) eqn:Hc; [|discriminate].
    destruct (take_digits n s) as [d'|] eqn:Hd'; [|discriminate].
    inversion Hd; subst. destruct (IH _ _ Hd') as (Hl & Ha & suf & ->).
    simpl. rewrite Hc, Ha, Hl. repeat split. by exists suf.
Qed.

Lemma take_digits_complete d : ∀ suf,
  all_digits d = true → take_digits (String.length d) (d +:+ suf) = Some d.
Proof.
  induction d as [|c d IH]; intros suf Hd; simpl in *; [done|].
  apply andb_true_iff in Hd as [Hc Hd]. by rewrite Hc, IH.
Qed.

Lemma strip_prefix_spec p : ∀ s rest, strip_prefix p s = Some rest ↔ s = p +:+ rest.
Proof.
  induction p as [|c p IH]; intros s rest; simpl.
  - split; [by intros [= ->]|by intros ->].
  - destruct s as [|c' s].
    + split; [discriminate|]. intros [=].
    + destruct (Ascii.eqb_spec c' c) as [->|Hne].
      * rewrite IH. split; [by intros ->|]. by intros [= ->].
      * split; [discriminate|]. intros [= -> _]. done.
Qed.

Lemma match_here_spec s d :
  match_here s = Some d ↔
  String.length d = 6%nat ∧ all_digits d = true ∧ ∃ suf, s = "request-" +:+ d +:+ suf.
Proof.
  unfold match_here. split.
  - destruct (strip_prefix "request-" s) as [rest|] eqn:Hp; [|discriminate].
    apply strip_prefix_spec in Hp as ->. intros Hd.
    apply take_digits_spec in Hd as (Hl & Ha & suf & ->). eauto.
  - intros (Hl & Ha & suf & ->).
    assert (strip_prefix "request-" ("request-" +:+ d +:+ suf) = Some (d +:+ suf)) as ->
      by by apply strip_prefix_spec.
    rewrite <- Hl. by apply take_digits_complete.
Qed.

Lemma FindStringSubmatch_cons c s :
  FindStringSubmatch (String c s) =
  match match_here (String c s) with
  | Some d => ["request-" +:+ d; d]
  | None => FindStringSubmatch s
  end.
Proof. reflexivity. Qed.

Lemma FindStringSubmatch_empty : FindStringSubmatch "" = [].
Proof. reflexivity. Qed.

(** The matcher finds a match exactly in the names that contain the
    pattern; the capture group is six decimal digits. *)
Lemma FindStringSubmatch_cases s :
  FindStringSubmatch s = [] ∨
  ∃ d, FindStringSubmatch s = ["request-" +:+ d; d] ∧
       String.length d = 6%nat ∧ all_digits d = true.
Proof.
  induction s as [|c s IH]; [by left|].
  rewrite FindStringSubmatch_cons.
  destruct (match_here (String c s)) as [d|] eqn:Hm; [|done].
  right. exists d. apply match_here_spec in Hm as (? & ? & _). done.
Qed.

Lemma FindStringSubmatch_nil s : FindStringSubmatch s = [] ↔ ¬ matches_pattern s.
Proof.
  split.
  - intros Hnil (pre & d & suf & -> & Hl & Hd).
    induction pre as [|c pre IH].
    + change ("" +:+ "request-" +:+ d +:+ suf)
        with (String "r" ("equest-" +:+ d +:+ suf)) in Hnil.
      rewrite FindStringSubmatch_cons in Hnil.
      assert (match_here (String "r" ("equest-" +:+ d +:+ suf)) = Some d) as Hm
        by (apply match_here_spec; eauto).
      rewrite Hm in Hnil. discriminate.
    + change (String c pre +:+ "request-" +:+ d +:+ suf)
        with (String c (pre +:+ "request-" +:+ d +:+ suf)) in Hnil.
      rewrite FindStringSubmatch_cons in Hnil.
      destruct (match_here (String c (pre +:+ "request-" +:+ d +:+ suf)));
        [discriminate|]. auto.
  - intros Hno. induction s as [|c s IH]; [done|].
    rewrite FindStringSubmatch_cons.
    destruct (match_here (String c s)) as [d|] eqn:Hm.
    + exfalso. apply Hno. apply match_here_spec in Hm as (Hl & Hd & suf & Hs).
      exists "", d, suf. by rewrite Hs.
    + apply IH. intros (pre & d & suf & -> & Hl & Hd). apply Hno.
      by exists (String c pre), d, suf.
Qed.

End Digits.

(** ** The Record Store *)

Section Store.

Local Open Scope Z_scope.

Lemma wrap_small z : - 2 ^ 63 ≤ z < 2 ^ 63 → wrap z = z.
Proof.
  intros Hz. unfold wrap.
  change (2 ^ 63) with 9223372036854775808 in *.
  change (2 ^ 64) with 18446744073709551616.
  rewrite Z.mod_small by lia. lia.
Qed.

Lemma Atoi_unsigned c s :
  is_digit c = true →
  Atoi (String c s) =
  match digits_value 0 (String c s) with
  | None =>
      Err (ErrorString ("strconv.Atoi: parsing " +:+ dquote +:+ String c s
                        +:+ dquote +:+ ": invalid syntax"))
  | Some v =>
      if (minInt <=? v) && (v <=? maxInt) then Ok v
      else Err (ErrorString ("strconv.Atoi: parsing " +:+ dquote +:+ String c s
                             +:+ dquote +:+ ": value out of range"))
  end.
Proof.
  destruct c as [[] [] [] [] [] [] [] []]; try discriminate; reflexivity.
Qed.

(** The capture group always parses, to a number below one million. *)
Lemma Atoi_six_digits d :
  String.length d = 6%nat → all_digits d = true →
  ∃ v, Atoi d = Ok v ∧ digits_value 0 d = Some v ∧ 0 ≤ v ≤ 999999.
Proof.
  intros Hl Hd. destruct (all_digits_value d Hd) as (v & Hv & Hr).
  rewrite Hl in Hr. change (10 ^ Z.of_nat 6) with 1000000 in Hr.
  exists v. split; [|split; [done|lia]].
  destruct d as [|c d]; [discriminate|].
  simpl in Hd. apply andb_true_iff in Hd as [Hc _].
  rewrite (Atoi_unsigned _ _ Hc), Hv.
  assert ((minInt <=? v) && (v <=? maxInt) = true) as ->; [|done].
  apply andb_true_iff. unfold minInt, maxInt.
  change (2 ^ 63) with 9223372036854775808.
  split; [apply Z.leb_le|apply Z.leb_le]; lia.
Qed.

Lemma GetAllRequestIDs_loop_bounds names : ∀ acc ids,
  GetAllRequestIDs_loop names acc = Ok ids →
  Forall (λ id, 1 ≤ id ≤ 999999) acc →
  Forall (λ id, 1 ≤ id ≤ 999999) ids.
Proof.
  induction names as [|name names IH]; intros acc ids Hloop Hacc; simpl in Hloop.
  - by inversion Hloop; subst.
  - destruct (FindStringSubmatch_cases name) as [Hnil|(d & Hm & Hl & Hd)].
    + rewrite Hnil in Hloop. discriminate.
    + rewrite Hm in Hloop. simpl in Hloop.
      destruct (Atoi_six_digits d Hl Hd) as (v & Hv & _ & Hr).
      rewrite Hv in Hloop. apply IH in Hloop; [done|].
      destruct (v =? 0) eqn:Hz; [done|].
      apply Forall_app. split; [done|]. apply Forall_singleton.
      apply Z.eqb_neq in Hz. lia.
Qed.

Lemma GetAllRequestIDs_bounds r fs ids :
  GetAllRequestIDs r fs = Ok ids → Forall (λ id, 1 ≤ id ≤ 999999) ids.
Proof.
  unfold GetAllRequestIDs. destruct (ReadDir fs (RootPath r)) as [names|]; [|discriminate].
  destruct (length names =? 0)%nat.
  - intros [= <-]. constructor.
  - intros Hloop. eapply GetAllRequestIDs_loop_bounds; [done|constructor].
Qed.

Lemma Forall_last (P : Z → Prop) id ids :
  Forall P (id :: ids) → P (List.last (id :: ids) 0).
Proof.
  revert id. induction ids as [|id' ids IH]; intros id Hall.
  - simpl. by inversion Hall.
  - change (List.last (id :: id' :: ids) 0) with (List.last (id' :: ids) 0).
    apply IH. by inversion Hall.
Qed.

(** Without wrap-around: the listing holds numbers below one million. *)
Lemma NextRequestID_last r fs ids :
  GetAllRequestIDs r fs = Ok ids →
  NextRequestID_ r fs = Ok (match ids with [] => 0 | _ => List.last ids 0 + 1 end).
Proof.
  intros Hids. unfold NextRequestID_. rewrite Hids.
  destruct ids as [|id ids]; [done|].
  change (length (id :: ids) =? 0)%nat with false. cbv iota.
  f_equal. unfold Go.add. apply wrap_small.
  apply GetAllRequestIDs_bounds, Forall_last in Hids.
  change (2 ^ 63) with 9223372036854775808. lia.
Qed.

Lemma NextRequestID_zero_iff r fs :
  NextRequestID_ r fs = Ok 0 ↔ GetAllRequestIDs r fs = Ok [].
Proof.
  split.
  - intros Hnext. destruct (GetAllRequestIDs r fs) as [ids|e] eqn:Hids.
    + rewrite (NextRequestID_last _ _ _ Hids) in Hnext.
      destruct ids as [|id ids]; [done|]. exfalso.
      apply GetAllRequestIDs_bounds, Forall_last in Hids.
      set (l := List.last (id :: ids) 0) in *.
      injection Hnext as Hn. lia.
    + unfold NextRequestID_ in Hnext. rewrite Hids in Hnext. discriminate.
  - intros Hids. by rewrite (NextRequestID_last _ _ _ Hids).
Qed.

Lemma ReadDir_Ok fs root names :
  ReadDir fs root = Ok names ↔
  ∃ entries, fs !! root = Some entries ∧
             names = merge_sort String.le ((map_to_list entries).*1).
Proof.
  unfold ReadDir. destruct (fs !! root) as [entries|].
  - split; [intros [= <-]; eauto|]. by intros (? & [= <-] & ->).
  - split; [discriminate|]. by intros (? & [=] & _).
Qed.

Lemma elem_of_sorted_names (entries : gmap string (gmap string string)) name :
  name ∈ merge_sort String.le ((map_to_list entries).*1) ↔ is_Some (entries !! name).
Proof.
  rewrite merge_sort_Permutation, list_elem_of_fmap. split.
  - intros ([k v] & -> & Hin). apply elem_of_map_to_list in Hin. eauto.
  - intros [v Hv]. exists (name, v). split; [done|]. by apply elem_of_map_to_list.
Qed.

Lemma GetAllRequestIDs_loop_stray names : ∀ acc name,
  name ∈ names → FindStringSubmatch name = [] →
  ∃ e, GetAllRequestIDs_loop names acc = Err e.
Proof.
  induction names as [|n names IH]; intros acc name Hin Hnil.
  - by apply elem_of_nil in Hin.
  - simpl. destruct (FindStringSubmatch_cases n) as [Hn|(d & Hm & Hl & Hd)].
    + rewrite Hn. simpl. eauto.
    + rewrite Hm. simpl. destruct (Atoi d) as [v|e]; [|eauto].
      apply elem_of_cons in Hin as [->|Hin].
      * rewrite Hnil in Hm. discriminate.
      * eauto.
Qed.

Lemma MaybeGetSnapshot_snapshot_file r fs id :
  MaybeGetSnapshot r fs id = (snapshot_file r fs id, None).
Proof.
  unfold MaybeGetSnapshot, loadFile, requestPath, ReadFile, snapshot_file, FormatRequestID_.
  destruct (fs !! RootPath r) as [entries|]; [|done].
  destruct (entries !! _) as [files|]; [|done].
  by destruct (files !! "snapshot.txt").
Qed.

Lemma GetPriorSnapshot_loop_spec r fs rid k :
  match GetPriorSnapshot_loop r fs rid k with
  | Ok s =>
      ∃ j, 0 ≤ j < Z.of_nat k ∧ snapshot_file r fs j = Some s ∧
           ∀ i, j < i < Z.of_nat k → snapshot_file r fs i = None
  | Err _ => ∀ j, 0 ≤ j < Z.of_nat k → snapshot_file r fs j = None
  end.
Proof.
  induction k as [|k IH]; simpl GetPriorSnapshot_loop.
  - intros j Hj. lia.
  - rewrite MaybeGetSnapshot_snapshot_file.
    destruct (snapshot_file r fs (Z.of_nat k)) as [s|] eqn:Hk.
    + exists (Z.of_nat k). split; [lia|]. split; [done|]. intros i Hi. lia.
    + destruct (GetPriorSnapshot_loop r fs rid k) as [s|e].
      * destruct IH as (j & Hj & Hs & Hnone). exists j.
        split; [lia|]. split; [done|]. intros i Hi.
        destruct (decide (i = Z.of_nat k)) as [->|]; [done|]. apply Hnone. lia.
      * intros j Hj. destruct (decide (j = Z.of_nat k)) as [->|]; [done|].
        apply IH. lia.
Qed.

Lemma GetPriorSnapshot_resolves r fs id :
  1 ≤ id →
  match GetPriorSnapshot r fs id with
  | Ok s =>
      ∃ j, 0 ≤ j < id ∧ snapshot_file r fs j = Some s ∧
           ∀ i, j < i < id → snapshot_file r fs i = None
  | Err _ => ∀ j, 0 ≤ j < id → snapshot_file r fs j = None
  end.
Proof.
  intros Hid. unfold GetPriorSnapshot.
  destruct (id <=? 0) eqn:Hle; [apply Z.leb_le in Hle; lia|].
  pose proof (GetPriorSnapshot_loop_spec r fs id (Z.to_nat id)) as Hloop.
  rewrite Z2Nat.id in Hloop by lia. done.
Qed.

End Store.

Section StoreFiles.

Lemma snapshot_file_file_at r fs id :
  snapshot_file r fs id =
  file_at fs (RootPath r) ("request-" +:+ Sprintf_06d id) "snapshot.txt".
Proof. reflexivity. Qed.

Lemma loadFile_file_at r fs id filename :
  loadFile r fs id filename =
  match file_at fs (RootPath r) ("request-" +:+ Sprintf_06d id) filename with
  | Some content => Ok content
  | None =>
      Err (ErrNotExist (RootPath r +:+ "/" +:+ ("request-" +:+ Sprintf_06d id)
                        +:+ "/" +:+ filename))
  end.
Proof.
  unfold loadFile, requestPath, ReadFile, file_at, FormatRequestID_.
  destruct (fs !! RootPath r) as [entries|]; [|done].
  destruct (entries !! _) as [files|]; [|done].
  by destruct (files !! filename).
Qed.

Lemma saveFile_eq r fs id filename content :
  saveFile r fs id filename content =
  let entries := default ∅ (fs !! RootPath r) in
  let dir := "request-" +:+ Sprintf_06d id in
  (<[RootPath r := <[dir := <[filename := content]> (default ∅ (entries !! dir))]> entries]> fs,
   None).
Proof.
  unfold saveFile, requestPath, FormatRequestID_, MkdirAll, WriteFile.
  set (rt := RootPath r). set (d := "request-" +:+ Sprintf_06d id).
  destruct (fs !! rt) as [entries|] eqn:Hrt; simpl.
  - destruct (entries !! d) as [files|] eqn:Hd; simpl.
    + rewrite lookup_insert_eq, Hd. by rewrite insert_insert_eq.
    + rewrite !lookup_insert_eq. by rewrite !insert_insert_eq.
  - rewrite lookup_empty. simpl. rewrite !lookup_insert_eq.
    by rewrite !insert_insert_eq.
Qed.

(** A save never fails in this file system, and changes exactly the file
    it writes. *)
Lemma saveFile_file_at r fs id filename content :
  (saveFile r fs id filename content).2 = None ∧
  ∀ root dir f,
    file_at (saveFile r fs id filename content).1 root dir f =
    if decide (root = RootPath r ∧ dir = "request-" +:+ Sprintf_06d id ∧ f = filename)
    then Some content
    else file_at fs root dir f.
Proof.
  rewrite saveFile_eq. simpl. split; [done|]. intros root dir f. unfold file_at.
  set (rt := RootPath r). set (d := "request-" +:+ Sprintf_06d id).
  destruct (decide (root = rt)) as [->|Hr].
  - rewrite lookup_insert_eq.
    destruct (decide (dir = d)) as [->|Hdd].
    + rewrite lookup_insert_eq.
      destruct (decide (f = filename)) as [->|Hf].
      * rewrite lookup_insert_eq. by rewrite decide_True.
      * rewrite lookup_insert_ne by done. rewrite decide_False by (intros (? & ? & ?); congruence).
        destruct (fs !! rt) as [entries|]; simpl; [|by rewrite lookup_empty].
        destruct (entries !! d); simpl; [done|by rewrite lookup_empty].
    + rewrite lookup_insert_ne by done. rewrite decide_False by (intros (? & ? & ?); congruence).
      destruct (fs !! rt) as [entries|]; simpl; [done|by rewrite lookup_empty].
  - rewrite lookup_insert_ne by done. by rewrite decide_False by (intros (? & ? & ?); congruence).
Qed.

End StoreFiles.

(** ** A store in its own layout is listed in ascending order *)

Section Canonical.

Local Open Scope Z_scope.

Lemma append_empty_r s : s +:+ "" = s.
Proof.
  induction s as [|c s IH]; [done|].
  change (String c s +:+ "") with (String c (s +:+ "")). by rewrite IH.
Qed.

Lemma is_canonical_spec name :
  is_canonical name = true ↔
  ∃ d, name = "request-" +:+ d ∧ String.length d = 6%nat ∧ all_digits d = true.
Proof.
  unfold is_canonical. split.
  - destruct (strip_prefix "request-" name) as [d|] eqn:Hp; [|discriminate].
    apply strip_prefix_spec in Hp. intros [Hl Hd]%andb_true_iff.
    apply Nat.eqb_eq in Hl. eauto.
  - intros (d & -> & Hl & Hd).
    assert (strip_prefix "request-" ("request-" +:+ d) = Some d) as ->
      by by apply strip_prefix_spec.
    rewrite Hd, Hl. done.
Qed.

Lemma canonical_id_eq d : canonical_id ("request-" +:+ d) = default 0 (digits_value 0 d).
Proof.
  unfold canonical_id.
  assert (strip_prefix "request-" ("request-" +:+ d) = Some d) as ->
    by by apply strip_prefix_spec.
  done.
Qed.

Lemma FindStringSubmatch_canonical d :
  String.length d = 6%nat → all_digits d = true →
  FindStringSubmatch ("request-" +:+ d) = ["request-" +:+ d; d].
Proof.
  intros Hl Hd.
  change ("request-" +:+ d) with (String "r" ("equest-" +:+ d)) at 1.
  rewrite FindStringSubmatch_cons.
  assert (match_here (String "r" ("equest-" +:+ d)) = Some d) as ->; [|done].
  apply match_here_spec. split; [done|]. split; [done|].
  exists "". by rewrite append_empty_r.
Qed.

(** The loop of [GetAllRequestIDs] on names in the layout of the store. *)
Lemma GetAllRequestIDs_loop_canonical names : ∀ acc,
  Forall (λ name, is_canonical name = true) names →
  GetAllRequestIDs_loop names acc
  = Ok (acc ++ filter (λ id, id ≠ 0) (canonical_id <$> names)).
Proof.
  induction names as [|name names IH]; intros acc Hall.
  - simpl. by rewrite app_nil_r.
  - apply Forall_cons in Hall as [Hname Hall].
    apply is_canonical_spec in Hname as (d & -> & Hl & Hd).
    cbn [GetAllRequestIDs_loop]. rewrite (FindStringSubmatch_canonical d Hl Hd).
    cbn [length Nat.eqb nth].
    destruct (Atoi_six_digits d Hl Hd) as (v & -> & Hv & _).
    rewrite IH by done. rewrite fmap_cons, canonical_id_eq, Hv. simpl default.
    rewrite filter_cons. destruct (v =? 0) eqn:Hz.
    + apply Z.eqb_eq in Hz. by rewrite decide_False by lia.
    + apply Z.eqb_neq in Hz. rewrite decide_True by done.
      by rewrite <- app_assoc.
Qed.

Lemma digits_value_range s : ∀ v,
  digits_value 0 s = Some v → 0 ≤ v < 10 ^ Z.of_nat (String.length s).
Proof.
  induction s as [|c s IH]; intros v Hv.
  - simpl in Hv. injection Hv as <-. simpl. lia.
  - simpl in Hv. destruct (digit_value c) as [a|] eqn:Hc; [|discriminate].
    rewrite digits_value_shift in Hv.
    destruct (digits_value 0 s) as [w|]; [|discriminate].
    injection Hv as <-. specialize (IH _ eq_refl).
    apply digit_value_range in Hc.
    cbn [String.length]. rewrite Nat2Z.inj_succ, Z.pow_succ_r by lia. nia.
Qed.

Lemma digit_value_code c a : digit_value c = Some a → a = Z.of_N (N_of_ascii c) - 48.
Proof.
  unfold digit_value. destruct (_ && _); [|discriminate]. by intros [= <-].
Qed.

(** Digit strings of one length compare as the numbers they spell. *)
Lemma digits_compare dx : ∀ dy vx vy,
  String.length dx = String.length dy →
  digits_value 0 dx = Some vx → digits_value 0 dy = Some vy →
  String.compare dx dy = (vx ?= vy).
Proof.
  induction dx as [|cx dx IH]; intros [|cy dy] vx vy Hlen Hx Hy; try discriminate.
  - simpl in *. by inversion Hx; inversion Hy; subst.
  - simpl in Hlen. injection Hlen as Hlen. simpl in Hx, Hy.
    destruct (digit_value cx) as [ax|] eqn:Hcx; [|discriminate].
    destruct (digit_value cy) as [ay|] eqn:Hcy; [|discriminate].
    rewrite digits_value_shift in Hx, Hy.
    pose proof (digits_value_range dx) as Hrx.
    pose proof (digits_value_range dy) as Hry.
    pose proof (IH dy) as IHdy.
    destruct (digits_value 0 dx) as [wx|]; [|discriminate].
    destruct (digits_value 0 dy) as [wy|]; [|discriminate].
    injection Hx as <-. injection Hy as <-.
    specialize (Hrx _ eq_refl). specialize (Hry _ eq_refl).
    specialize (IHdy wx wy Hlen eq_refl eq_refl).
    rewrite Hlen in Hrx |- *. set (p := 10 ^ Z.of_nat (String.length dy)) in *.
    apply digit_value_code in Hcx, Hcy.
    cbn [String.compare]. unfold Ascii.compare.
    destruct (N.compare_spec (N_of_ascii cx) (N_of_ascii cy)) as [Heq|Hlt|Hgt].
    + assert (ax = ay) as -> by lia.
      rewrite IHdy. by rewrite Z.add_compare_mono_l.
    + symmetry. apply Z.compare_lt_iff. nia.
    + symmetry. apply Z.compare_gt_iff. nia.
Qed.

Lemma canonical_le_lt x y :
  is_canonical x = true → is_canonical y = true →
  String.le x y → x ≠ y → canonical_id x < canonical_id y.
Proof.
  intros (dx & -> & Hlx & Hdx)%is_canonical_spec
         (dy & -> & Hly & Hdy)%is_canonical_spec Hle Hne.
  rewrite !canonical_id_eq.
  destruct (all_digits_value dx Hdx) as (vx & Hvx & _).
  destruct (all_digits_value dy Hdy) as (vy & Hvy & _).
  rewrite Hvx, Hvy. simpl.
  assert (String.compare ("request-" +:+ dx) ("request-" +:+ dy)
          = String.compare dx dy) as Hcmp by reflexivity.
  unfold String.le, String.leb in Hle. rewrite Hcmp in Hle.
  pose proof (digits_compare dx dy vx vy (eq_trans Hlx (eq_sym Hly)) Hvx Hvy) as Hd.
  destruct (Z.compare_spec vx vy) as [Heq|Hlt|Hgt].
  - exfalso. apply Hne. f_equal. by apply String.compare_eq_iff.
  - done.
  - rewrite Hd in Hle. done.
Qed.

Lemma canonical_ids_sorted names :
  StronglySorted String.le names → NoDup names →
  Forall (λ name, is_canonical name = true) names →
  StronglySorted Z.lt (canonical_id <$> names).
Proof.
  induction 1 as [|x names Hsorted IH Hx]; intros Hnodup Hall; [constructor|].
  apply NoDup_cons in Hnodup as [Hnotin Hnodup].
  apply Forall_cons in Hall as [Hcx Hall].
  rewrite fmap_cons. constructor; [by apply IH|].
  apply Forall_fmap. apply Forall_forall. intros y Hy. simpl.
  rewrite Forall_forall in Hx. rewrite Forall_forall in Hall.
  apply canonical_le_lt; [done|by apply Hall|by apply Hx|].
  intros ->. done.
Qed.

Lemma StronglySorted_filter_lt (P : Z → Prop) `{∀ x, Decision (P x)} l :
  StronglySorted Z.lt l → StronglySorted Z.lt (filter P l).
Proof.
  induction 1 as [|x l Hsorted IH Hx]; [constructor|].
  rewrite filter_cons. destruct (decide (P x)); [|done].
  constructor; [done|]. apply Forall_forall. intros y [_ Hy]%list_elem_of_filter.
  rewrite Forall_forall in Hx. by apply Hx.
Qed.

(** A store in its own layout is listed in strictly ascending order. *)
Lemma canonical_listing_sorted r fs ids :
  canonical_store r fs → GetAllRequestIDs r fs = Ok ids → StronglySorted Z.lt ids.
Proof.
  intros Hcanon. unfold GetAllRequestIDs.
  destruct (ReadDir fs (RootPath r)) as [names|] eqn:Hread; [|discriminate].
  apply ReadDir_Ok in Hread as (entries & Hroot & ->).
  set (names := merge_sort String.le _).
  destruct (length names =? 0)%nat; [intros [= <-]; constructor|].
  assert (Forall (λ name, is_canonical name = true) names) as Hall.
  { apply Forall_forall. intros name [v Hv]%elem_of_sorted_names.
    by apply (Hcanon entries Hroot name v). }
  rewrite (GetAllRequestIDs_loop_canonical names [] Hall). intros [= <-]. simpl.
  apply StronglySorted_filter_lt. apply canonical_ids_sorted; [| |done].
  - apply StronglySorted_merge_sort; apply _.
  - unfold names. rewrite merge_sort_Permutation. apply NoDup_fst_map_to_list.
Qed.

Lemma max_ids_ge id ids : id ∈ ids → id ≤ max_ids ids.
Proof.
  induction ids as [|x ids IH]; [by intros ?%elem_of_nil|].
  intros [->|Hin]%elem_of_cons; simpl; [lia|]. specialize (IH Hin). lia.
Qed.

(** In an ascending listing the last identifier is the greatest. *)
Lemma sorted_last_max id ids :
  StronglySorted Z.lt (id :: ids) → 0 ≤ id →
  List.last (id :: ids) 0 = max_ids (id :: ids).
Proof.
  revert id. induction ids as [|y ids IH]; intros id Hsorted Hid.
  - simpl. lia.
  - change (List.last (id :: y :: ids) 0) with (List.last (y :: ids) 0).
    apply StronglySorted_inv in Hsorted as [Hrest Hlt].
    apply Forall_cons in Hlt as [Hy _].
    rewrite IH by (done || lia).
    change (max_ids (id :: y :: ids)) with (Z.max id (max_ids (y :: ids))).
    pose proof (max_ids_ge y (y :: ids) (list_elem_of_here _ _)). lia.
Qed.

Lemma GetAllRequestIDs_loop_nonzero names : ∀ acc ids,
  GetAllRequestIDs_loop names acc = Ok ids → 0 ∉ acc → 0 ∉ ids.
Proof.
  induction names as [|name names IH]; intros acc ids Hloop Hacc; simpl in Hloop.
  - by injection Hloop as <-.
  - destruct (length (FindStringSubmatch name) =? 0)%nat; [discriminate|].
    destruct (Atoi _) as [v|]; [|discriminate].
    apply IH in Hloop; [done|]. destruct (v =? 0) eqn:Hz; [done|].
    apply Z.eqb_neq in Hz. intros [?|?%list_elem_of_singleton]%elem_of_app; done.
Qed.

End Canonical.

(** ** The Interception Handler *)

Section HandlerFacts.

Context {R : Type} `{RecorderSaver R} `{Lib GraphQLRequest}.

(** Whatever happens while a response is handled, the handler returns
    [nil]. *)
Lemma ProxyResponseHandler_returns_nil (h : Handler R) (resp : Response) :
  (ProxyResponseHandler h resp).2 = None.
Proof.
  unfold ProxyResponseHandler.
  destruct (negb (Contains _ _)); [done|].
  destruct (String.eqb _ ""); [done|].
  destruct (ParseRequest _) as [q|e]; [|done].
  destruct (negb (ShouldRecordRequest _ q)); [done|].
  destruct (readAndResetResponseContent resp) as [resp1 [body|e]]; [|done].
  destruct (ShouldSnapshotRequest _ q); [|done].
  by destruct (TakeSnapshot _ _ _ _ _) as [[rec rep] err].
Qed.

(** The state after an accepted operation has been handled. *)
Lemma ProxyResponseHandler_accepted (h : Handler R) resp c q body :
  accepted h resp c q body →
  let h' := (ProxyResponseHandler h resp).1.1 in
  let id := nextRequestID h in
  let will := ShouldSnapshotRequest (selector h) q in
  let saved := (SaveResponse (SaveRequest (recorder h) id c).1 id body).1 in
  let snapshot := Snapshotter_TakeSnapshot (snapshotter h) q in
  nextRequestID h' = Go.add id 1 ∧
  requestContent h' = delete (addr (Request_ resp)) (requestContent h) ∧
  requestInfoChan h' =
    requestInfoChan h ++ event id q will false ::
      (if will
       then [event id q true match snapshot with Ok _ => true | Err _ => false end]
       else []) ∧
  reporter h' =
    reporter h ++
      (OperationType_ q, FormatRequestID saved id +:+ " " +:+ OperationName q) ::
      (if will
       then ("", "taking a snapshot, " +:+ SnapshotInfo (snapshotter h) +:+ "...") ::
            match snapshot with
            | Ok _ => [("", "...done")]
            | Err e => [("error", Error e)]
            end
       else []) ∧
  recorder h' =
    (if will
     then match snapshot with
          | Ok b => (SaveSnapshot saved id b).1
          | Err _ => saved
          end
     else saved) ∧
  selector h' = selector h ∧ snapshotter h' = snapshotter h.
Proof.
  intros (Hpath & Hc & Hne & Hparse & Hrec & Hread). unfold ProxyResponseHandler.
  rewrite Hpath, Hc. simpl.
  apply String.eqb_neq in Hne. rewrite Hne, Hparse, Hrec. simpl.
  destruct (readAndResetResponseContent resp) as [resp1 [body'|e]];
    simpl in Hread; [|discriminate]. injection Hread as ->.
  destruct (ShouldSnapshotRequest (selector h) q) eqn:Hwill.
  - unfold TakeSnapshot. simpl.
    destruct (Snapshotter_TakeSnapshot (snapshotter h) q) as [b|e]; simpl.
    + destruct (SaveSnapshot _ _ b) as [rec err] eqn:Hsave. simpl.
      unfold Report, event. rewrite <- !app_assoc. simpl. done.
    + unfold Report, event. rewrite <- !app_assoc. simpl. done.
  - simpl. unfold Report, event. done.
Qed.

(** A rejected or unmatched response changes nothing but the
    correlation map. *)
Lemma ProxyResponseHandler_rejected (h : Handler R) resp c q :
  Contains (URL_Path (Request_ resp)) "/backend-graphql/" = true →
  requestContent h !! addr (Request_ resp) = Some c →
  c ≠ "" →
  ParseRequest c = Ok q →
  ShouldRecordRequest (selector h) q = false →
  ProxyResponseHandler h resp =
  (with_requestContent h (delete (addr (Request_ resp)) (requestContent h)), resp, None).
Proof.
  intros Hpath Hc Hne Hparse Hrec. unfold ProxyResponseHandler.
  rewrite Hpath, Hc. simpl.
  apply String.eqb_neq in Hne. by rewrite Hne, Hparse, Hrec.
Qed.

(** A response whose path does not carry the marker returns before the
    correlation map is touched. *)
Lemma ProxyResponseHandler_unmatched (h : Handler R) resp :
  Contains (URL_Path (Request_ resp)) "/backend-graphql/" = false →
  ProxyResponseHandler h resp = (h, resp, None).
Proof. intros Hpath. unfold ProxyResponseHandler. by rewrite Hpath. Qed.

Lemma ParseRequest_OperationType c q :
  ParseRequest c = Ok q →
  OperationType_ q = OperationTypeQuery ∨
  OperationType_ q = OperationTypeMutation ∨
  OperationType_ q = OperationTypeUnknown.
Proof.
  unfold ParseRequest. destruct (json_Unmarshal c) as [d|]; [|discriminate].
  intros [= <-]. simpl.
  destruct (HasPrefix (Query d) "query"); [by left|].
  destruct (HasPrefix (Query d) "mutation"); [by right; left|by right; right].
Qed.

End HandlerFacts.

Section FileRecorder.

(** What the file-backed recorder holds after the request and the
    response of an identifier have been saved. *)
Lemma saved_request_response r fs id c body :
  let saved :=
    (SaveResponse (SaveRequest ((r, fs) : Recorder * FS) id c).1 id body).1 in
  saved.1 = r ∧
  ∀ root dir f,
    file_at saved.2 root dir f =
    if decide (root = RootPath r ∧ dir = "request-" +:+ Sprintf_06d id ∧ f = "response.txt")
    then Some body
    else if decide (root = RootPath r ∧ dir = "request-" +:+ Sprintf_06d id ∧ f = "request.txt")
         then Some c
         else file_at fs root dir f.
Proof.
  simpl. unfold lift_save, SaveRequest_, SaveResponse_. simpl.
  destruct (saveFile r fs id "request.txt" c) as [fs1 e1] eqn:H1. simpl.
  destruct (saveFile r fs1 id "response.txt" body) as [fs2 e2] eqn:H2. simpl.
  split; [done|]. intros root dir f.
  pose proof (proj2 (saveFile_file_at r fs id "request.txt" c) root dir f) as Hf1.
  pose proof (proj2 (saveFile_file_at r fs1 id "response.txt" body) root dir f) as Hf2.
  rewrite H1 in Hf1. rewrite H2 in Hf2. simpl in Hf1, Hf2. by rewrite Hf2, Hf1.
Qed.

End FileRecorder.

(** ** The state sent to a viewer *)

Section InitState.

Context `{Lib GraphQLRequest}.

Lemma _getAllRequestInfo_loop_spec rec fs requestIDs : ∀ acc records,
  tool._getAllRequestInfo_loop rec fs requestIDs acc = Ok records →
  ∃ new,
    records = acc ++ new ∧
    RequestID <$> new = requestIDs ∧
    Forall (λ info,
              WillSnapshot info = ShapshotComplete info ∧
              (WillSnapshot info = true
               ↔ is_Some (snapshot_file rec fs (RequestID info)))) new.
Proof.
  induction requestIDs as [|id ids IH]; intros acc records Hloop; simpl in Hloop.
  - injection Hloop as <-. exists []. by rewrite app_nil_r.
  - destruct (GetRequest rec fs id) as [request|]; [|discriminate].
    destruct (ParseRequest request) as [q|]; [|discriminate].
    rewrite MaybeGetSnapshot_snapshot_file in Hloop.
    apply IH in Hloop as (new & -> & Hids & Hflags).
    eexists (_ :: new). split; [by rewrite <- app_assoc|].
    split; [by rewrite fmap_cons, Hids|].
    constructor; [|done]. simpl. split; [done|].
    rewrite bool_decide_eq_true. destruct (snapshot_file rec fs id).
    + split; [eauto|done].
    + split; [done|]. by intros [? ?].
Qed.

(** The state is computed whenever every listed record has a request
    that can be read and parsed. *)
Lemma _getAllRequestInfo_loop_total rec fs requestIDs : ∀ acc,
  Forall (λ id, ∃ c q, GetRequest rec fs id = Ok c ∧ ParseRequest c = Ok q) requestIDs →
  ∃ records, tool._getAllRequestInfo_loop rec fs requestIDs acc = Ok records.
Proof.
  induction requestIDs as [|id ids IH]; intros acc Hall; simpl; [eauto|].
  apply Forall_cons in Hall as [(c & q & -> & ->) Hall].
  rewrite MaybeGetSnapshot_snapshot_file. by apply IH.
Qed.

End InitState.

(** * The claims *)

Section Claims.

Local Open Scope Z_scope.

(** C1 (the code departs from the claim).  On an empty store
    [Recorder.NextRequestID] returns 0, so the handler that [ListenAndServe]
    builds starts its counter at 0: the first accepted operation is given
    identifier 0, the identifier of the bootstrap snapshot, and three
    accepted operations are given 0, 1, 2 instead of 1, 2, 3.  The first
    record lands in the directory of the bootstrap snapshot and is not
    listed. *)
Theorem identifiers_on_empty_store_start_at_zero :
  ∃ h : Handler (Recorder * FS),
    server.ListenAndServe
      (mainServer (testSnapshotter "bootstrap" None "info")) emptyStore = Ok h ∧
    nextRequestID h = 0 ∧
    let h1 := serve h 1%positive graphqlPath (Some queryToRecord) in
    let h2 := serve h1 2%positive graphqlPath (Some queryToRecord) in
    let h3 := serve h2 3%positive graphqlPath (Some queryToRecord) in
    RequestID <$> requestInfoChan h3 = [0; 1; 2] ∧
    GetRequest out (recorder h1).2 0 = Ok queryToRecord ∧
    snapshot_file out (recorder h1).2 0 = Some "bootstrap" ∧
    GetAllRequestIDs out (recorder h3).2 = Ok [1; 2].
Proof. eexists. split; [reflexivity|]. vm_compute. done. Qed.

(** C3.  For [1 ≤ id], [GetPriorSnapshot] returns the snapshot of the
    greatest identifier below [id], down to 0, that has a snapshot file,
    and fails exactly when no identifier in [0, id-1] has one; for
    [id ≤ 0] it fails with the same error whatever the file system
    holds, so no file is consulted. *)
Theorem GetPriorSnapshot_greatest_prior (r : Recorder) (fs : FS) (id : Z) :
  (1 ≤ id →
   match GetPriorSnapshot r fs id with
   | Ok s =>
       ∃ j, 0 ≤ j < id ∧ snapshot_file r fs j = Some s ∧
            ∀ i, j < i < id → snapshot_file r fs i = None
   | Err _ => ∀ j, 0 ≤ j < id → snapshot_file r fs j = None
   end) ∧
  (id ≤ 0 →
   ∀ fs', GetPriorSnapshot r fs' id =
          Err (ErrorString ("invalid request ID, " +:+ Sprintf_d id))).
Proof.
  split.
  - apply GetPriorSnapshot_resolves.
  - intros Hid fs'. unfold GetPriorSnapshot.
    by apply Z.leb_le in Hid as ->.
Qed.

(** C4 (the code departs from the claim).  [ProxyDirector] buffers every
    request, but [ProxyResponseHandler] returns on a path without the
    marker before it deletes the entry: after two exchanges on
    [/some/endpoint] both entries are still in the correlation map. *)
Theorem unmatched_exchange_leaves_its_entry :
  let h1 := serve testHandler 1%positive "/some/endpoint" None in
  let h2 := serve h1 2%positive "/some/endpoint" (Some "x") in
  requestContent h2 !! 1%positive = Some "" ∧
  requestContent h2 !! 2%positive = Some "x" ∧
  size (requestContent h2) = 2%nat.
Proof. vm_compute. done. Qed.

(** C7.  When the Selection Policy rejects the parsed operation, handling
    the response changes neither the identifier counter, nor the emitted
    Lifecycle Events, nor the Record Store, nor the reports; the response
    is passed on untouched and the handler returns [nil]. *)
Theorem rejected_operation_changes_nothing {R : Type} `{RecorderSaver R}
    `{Lib GraphQLRequest} (h : Handler R) (resp : Response) (c : string)
    (q : GraphQLRequest) :
  Contains (URL_Path (Request_ resp)) "/backend-graphql/" = true →
  requestContent h !! addr (Request_ resp) = Some c →
  c ≠ "" →
  ParseRequest c = Ok q →
  ShouldRecordRequest (selector h) q = false →
  let h' := (ProxyResponseHandler h resp).1.1 in
  nextRequestID h' = nextRequestID h ∧
  requestInfoChan h' = requestInfoChan h ∧
  recorder h' = recorder h ∧
  reporter h' = reporter h ∧
  (ProxyResponseHandler h resp).1.2 = resp ∧
  (ProxyResponseHandler h resp).2 = None.
Proof.
  intros Hpath Hc Hne Hparse Hrec.
  by rewrite (ProxyResponseHandler_rejected h resp c q).
Qed.

(** C10.  When the store root holds an entry whose name does not contain
    [request-] followed by six decimal digits, [GetAllRequestIDs] fails
    instead of skipping the entry, and with it [NextRequestID] and the
    construction of the handler. *)
Theorem stray_entry_fails_listing `{Lib GraphQLRequest} (r : Recorder) (fs : FS)
    (entries : gmap string (gmap string string)) (name : string) :
  fs !! RootPath r = Some entries →
  is_Some (entries !! name) →
  ¬ matches_pattern name →
  (∃ e, GetAllRequestIDs r fs = Err e) ∧
  (∃ e, NextRequestID_ r fs = Err e) ∧
  (∀ host endpoint snapshotter selector reporter requestInfoChan,
     ∃ e, NewHandler (R := Recorder * FS) host endpoint snapshotter (r, fs)
            selector reporter requestInfoChan = Err e).
Proof.
  intros Hroot Hname Hno.
  assert (∃ e, GetAllRequestIDs r fs = Err e) as [e He].
  { unfold GetAllRequestIDs, ReadDir. rewrite Hroot.
    set (names := merge_sort String.le _).
    assert (name ∈ names) as Hin by by apply elem_of_sorted_names.
    destruct names as [|n names]; [by apply elem_of_nil in Hin|].
    change (length (n :: names) =? 0)%nat with false. cbv iota.
    eapply GetAllRequestIDs_loop_stray; [done|]. by apply FindStringSubmatch_nil. }
  assert (NextRequestID_ r fs = Err e) as Hnext
    by (unfold NextRequestID_; by rewrite He).
  split; [eauto|]. split; [eauto|].
  intros host endpoint sn sel rep chan. unfold NewHandler.
  destruct (url_Parse endpoint) as [u|e']; [|eauto].
  change (NextRequestID (r, fs)) with (NextRequestID_ r fs). rewrite Hnext. eauto.
Qed.

(** C2, as stated, fails: on the empty store [NextRequestID] returns 0,
    which is a value other than 1, and the bootstrap snapshot is taken
    all the same. *)
Lemma bootstrap_guard_is_not_one :
  ¬ (∀ (s : server.Server) (fs : FS) (n : Z),
       NextRequestID_ (server.recorder s) fs = Ok n →
       if n =? 1
       then server.takeInitialSnapshotIfNeeded s fs
            = server.takeSnapshot s fs 0 GraphQLRequest_zero
       else server.takeInitialSnapshotIfNeeded s fs = (s, fs, None)).
Proof.
  intros Hclaim.
  specialize (Hclaim (mainServer (testSnapshotter "bootstrap" None "info"))
                emptyStore 0 eq_refl).
  simpl in Hclaim.
  apply (f_equal (λ x, server.reporter x.1.1)) in Hclaim.
  vm_compute in Hclaim. discriminate.
Qed.

(** C2, amended.  The bootstrap snapshot is taken exactly when the
    listing of the store is empty, and the guard is whether
    [NextRequestID] returns anything other than 0: on a value other than 0
    nothing happens, on an error start-up fails with that error, and on 0
    the Snapshot Provider is invoked for identifier 0; when it succeeds
    its bytes are the snapshot file of identifier 0. *)
Theorem bootstrap_runs_on_empty_listing (s : server.Server) (fs : FS) :
  (NextRequestID_ (server.recorder s) fs = Ok 0
   ↔ GetAllRequestIDs (server.recorder s) fs = Ok []) ∧
  (∀ n, NextRequestID_ (server.recorder s) fs = Ok n → n ≠ 0 →
        server.takeInitialSnapshotIfNeeded s fs = (s, fs, None)) ∧
  (∀ e, NextRequestID_ (server.recorder s) fs = Err e →
        server.takeInitialSnapshotIfNeeded s fs = (s, fs, Some e)) ∧
  (NextRequestID_ (server.recorder s) fs = Ok 0 →
   server.takeInitialSnapshotIfNeeded s fs
   = server.takeSnapshot s fs 0 GraphQLRequest_zero ∧
   ∀ b, Snapshotter_TakeSnapshot (server.snapshotter s) GraphQLRequest_zero = Ok b →
        (server.takeInitialSnapshotIfNeeded s fs).2 = None ∧
        snapshot_file (server.recorder s)
          (server.takeInitialSnapshotIfNeeded s fs).1.2 0 = Some b).
Proof.
  split; [apply NextRequestID_zero_iff|]. split; [|split].
  - intros n Hn Hne. unfold server.takeInitialSnapshotIfNeeded. rewrite Hn.
    apply Z.eqb_neq in Hne. by rewrite Hne.
  - intros e He. unfold server.takeInitialSnapshotIfNeeded. by rewrite He.
  - intros Hn.
    assert (server.takeInitialSnapshotIfNeeded s fs
            = server.takeSnapshot s fs 0 GraphQLRequest_zero) as Heq
      by (unfold server.takeInitialSnapshotIfNeeded; by rewrite Hn).
    split; [done|]. intros b Hb. rewrite Heq. unfold server.takeSnapshot. simpl.
    rewrite Hb. unfold SaveSnapshot_.
    destruct (saveFile (server.recorder s) fs 0 "snapshot.txt" b) as [fs' e] eqn:Hsave.
    simpl. split; [done|].
    pose proof (proj2 (saveFile_file_at (server.recorder s) fs 0 "snapshot.txt" b)
                  (RootPath (server.recorder s)) ("request-" +:+ Sprintf_06d 0)
                  "snapshot.txt") as Hfile.
    rewrite Hsave in Hfile. simpl in Hfile. rewrite decide_True in Hfile by done.
    by rewrite snapshot_file_file_at.
Qed.

(** C5, as stated, fails: a store write that fails while a response is
    handled leaves no report.  Over a store that refuses every write the
    only report of an accepted query is the usual record line. *)
Lemma store_write_failure_is_not_reported :
  ¬ (∀ (R : Type) (RS : RecorderSaver R) (h : Handler R) (resp : Response)
       (c : string) (q : GraphQLRequest) (body : string),
       accepted h resp c q body →
       (SaveRequest (recorder h) (nextRequestID h) c).2 ≠ None →
       ∃ m, ("error", m) ∈ reporter (ProxyResponseHandler h resp).1.1).
Proof.
  intros Hclaim.
  destruct (Hclaim readOnlyRecorder _ readOnlyExchange.1 readOnlyExchange.2
              queryToRecord queryDecoded "some content from the origin")
    as [m Hm].
  - repeat split; try reflexivity. discriminate.
  - discriminate.
  - assert (reporter (ProxyResponseHandler readOnlyExchange.1 readOnlyExchange.2).1.1
            = [("query", "000001 operationToRecord")]) as Hrep by reflexivity.
    rewrite Hrep in Hm. apply list_elem_of_singleton in Hm. discriminate.
Qed.

(** C5, amended.  The response handler returns [nil] in every case.  A
    failing snapshot capture is reported to the sink under the label
    [error].  The errors of [SaveRequest], [SaveResponse] and
    [SaveSnapshot] are discarded without a report: when the snapshot
    capture does not fail, handling an accepted operation adds no [error]
    report, whatever the saves return. *)
Theorem snapshot_failure_reported_write_failure_discarded {R : Type}
    `{RecorderSaver R} `{Lib GraphQLRequest} (h : Handler R) (resp : Response) :
  (ProxyResponseHandler h resp).2 = None ∧
  (∀ c q body e,
     accepted h resp c q body →
     ShouldSnapshotRequest (selector h) q = true →
     Snapshotter_TakeSnapshot (snapshotter h) q = Err e →
     ("error", Error e) ∈ reporter (ProxyResponseHandler h resp).1.1) ∧
  (∀ c q body,
     accepted h resp c q body →
     (ShouldSnapshotRequest (selector h) q = false
      ∨ ∃ b, Snapshotter_TakeSnapshot (snapshotter h) q = Ok b) →
     ∀ m, ("error", m) ∈ reporter (ProxyResponseHandler h resp).1.1 →
          ("error", m) ∈ reporter h).
Proof.
  split; [apply ProxyResponseHandler_returns_nil|]. split.
  - intros c q body e Hacc Hwill Hsnap.
    destruct (ProxyResponseHandler_accepted h resp c q body Hacc)
      as (_ & _ & _ & Hrep & _).
    rewrite Hrep, Hwill, Hsnap. apply elem_of_app. right.
    do 2 apply list_elem_of_further. apply list_elem_of_here.
  - intros c q body Hacc Hok m Hm.
    destruct (ProxyResponseHandler_accepted h resp c q body Hacc)
      as (_ & _ & _ & Hrep & _).
    rewrite Hrep in Hm. apply elem_of_app in Hm as [Hm|Hm]; [done|]. exfalso.
    destruct Hacc as (_ & _ & _ & Hparse & _).
    apply ParseRequest_OperationType in Hparse.
    apply elem_of_cons in Hm as [Hm|Hm].
    { injection Hm as Hm _. rewrite <- Hm in Hparse.
      destruct Hparse as [?|[?|?]]; discriminate. }
    destruct Hok as [Hwill|[b Hb]].
    + rewrite Hwill in Hm. by apply elem_of_nil in Hm.
    + rewrite Hb in Hm. destruct (ShouldSnapshotRequest (selector h) q).
      * apply elem_of_cons in Hm as [Hm|Hm]; [discriminate|].
        apply list_elem_of_singleton in Hm. discriminate.
      * by apply elem_of_nil in Hm.
Qed.


(** C6, as stated, fails: the pattern is searched anywhere in a name and
    the listing is in the order of the names.  With a renamed directory
    [old-request-000002] beside [request-000001] the listing is [2; 1],
    which is not ascending, and the next identifier is 2, not 3. *)
Lemma listing_follows_names_not_numbers :
  ¬ (∀ (r : Recorder) (fs : FS) (ids : list Z),
       GetAllRequestIDs r fs = Ok ids →
       Sorted Z.le ids ∧
       (0 ∉ ids) ∧
       NextRequestID_ r fs = Ok (match ids with [] => 0 | _ => max_ids ids + 1 end)).
Proof.
  intros Hclaim.
  destruct (Hclaim out foreignStore [2; 1] eq_refl) as (_ & _ & Hnext).
  vm_compute in Hnext. discriminate.
Qed.

(** C6, amended.  In every store state 0 is not listed, and
    [NextRequestID] is 0 on an empty listing and the last listed
    identifier plus 1 otherwise.  When every entry of the store root is
    named exactly [request-] followed by six decimal digits, the listing
    is in ascending numeric order and the last identifier is the
    greatest. *)
Theorem listing_last_plus_one (r : Recorder) (fs : FS) (ids : list Z) :
  GetAllRequestIDs r fs = Ok ids →
  (0 ∉ ids) ∧
  NextRequestID_ r fs = Ok (match ids with [] => 0 | _ => List.last ids 0 + 1 end) ∧
  (canonical_store r fs →
   StronglySorted Z.lt ids ∧
   NextRequestID_ r fs = Ok (match ids with [] => 0 | _ => max_ids ids + 1 end)).
Proof.
  intros Hids. split; [|split].
  - revert Hids. unfold GetAllRequestIDs.
    destruct (ReadDir fs (RootPath r)) as [names|]; [|discriminate].
    destruct (length names =? 0)%nat.
    + intros [= <-]. by intros ?%elem_of_nil.
    + intros Hloop. eapply GetAllRequestIDs_loop_nonzero; [done|].
      by intros ?%elem_of_nil.
  - by apply NextRequestID_last.
  - intros Hcanon.
    pose proof (canonical_listing_sorted r fs ids Hcanon Hids) as Hsorted.
    split; [done|]. rewrite (NextRequestID_last r fs ids Hids).
    destruct ids as [|id ids]; [done|].
    rewrite (sorted_last_max id ids Hsorted); [done|].
    apply GetAllRequestIDs_bounds in Hids. apply Forall_cons in Hids as [? _]. lia.
Qed.

(** C9, as stated, fails for the same reason as C6: with the renamed
    directory beside the records 1 and 2 the state sent to a viewer
    lists the identifiers 2, 1, 2. *)
Lemma init_state_follows_names_not_numbers :
  ¬ (∀ (r : Recorder) (fs : FS) (records : list RequestInfo),
       tool._getAllRequestInfo r fs = Ok records →
       GetAllRequestIDs r fs = Ok (RequestID <$> records) ∧
       Sorted Z.le (RequestID <$> records) ∧
       Forall (λ info,
                 WillSnapshot info = ShapshotComplete info ∧
                 (WillSnapshot info = true
                  ↔ is_Some (snapshot_file r fs (RequestID info)))) records).
Proof.
  intros Hclaim.
  destruct (Hclaim out foreignRecordsStore
              [event 2 mutationDecoded true true;
               event 1 queryDecoded false false;
               event 2 mutationDecoded true true] eq_refl) as (_ & Hsorted & _).
  apply Sorted_inv in Hsorted as [_ Hhd].
  apply HdRel_inv in Hhd. simpl in Hhd. lia.
Qed.

(** C9, amended.  The state computed for a viewer that connects has one
    entry per listed identifier, in the order of the listing; in each
    entry [willSnapshot] and [snapshotComplete] are equal, and true
    exactly when the identifier has a snapshot file.  The order is
    ascending when every entry of the store root is named exactly
    [request-] followed by six decimal digits. *)
Theorem init_state_follows_listing `{Lib GraphQLRequest} (r : Recorder) (fs : FS)
    (records : list RequestInfo) :
  tool._getAllRequestInfo r fs = Ok records →
  GetAllRequestIDs r fs = Ok (RequestID <$> records) ∧
  Forall (λ info,
            WillSnapshot info = ShapshotComplete info ∧
            (WillSnapshot info = true
             ↔ is_Some (snapshot_file r fs (RequestID info)))) records ∧
  (canonical_store r fs → StronglySorted Z.lt (RequestID <$> records)).
Proof.
  unfold tool._getAllRequestInfo.
  destruct (GetAllRequestIDs r fs) as [ids|] eqn:Hids; [|discriminate].
  intros Hloop. apply _getAllRequestInfo_loop_spec in Hloop as (new & -> & Hnew & Hflags).
  simpl. rewrite Hnew. split; [done|]. split; [done|].
  intros Hcanon. by apply (canonical_listing_sorted r fs).
Qed.

End Claims.

(** ** Instances of the conditional claims *)

Section Witnesses.

Local Open Scope Z_scope.

Lemma GetPriorSnapshot_greatest_prior_witness :
  1 ≤ 4 ∧
  0 ≤ 0 ∧
  GetPriorSnapshot out snapshotStore 4 = Ok "after two" ∧
  match GetPriorSnapshot out snapshotStore 4 with
  | Ok s =>
      ∃ j, 0 ≤ j < 4 ∧ snapshot_file out snapshotStore j = Some s ∧
           ∀ i, j < i < 4 → snapshot_file out snapshotStore i = None
  | Err _ => ∀ j, 0 ≤ j < 4 → snapshot_file out snapshotStore j = None
  end ∧
  ∀ fs', GetPriorSnapshot out fs' 0 = Err (ErrorString ("invalid request ID, " +:+ Sprintf_d 0)).
Proof.
  split; [lia|]. split; [lia|]. split; [reflexivity|]. split.
  - apply (proj1 (GetPriorSnapshot_greatest_prior out snapshotStore 4)). lia.
  - apply (proj2 (GetPriorSnapshot_greatest_prior out snapshotStore 0)). lia.
Defined.

Lemma rejected_operation_changes_nothing_witness :
  let h := rejectedExchange.1 in
  let resp := rejectedExchange.2 in
  let h' := (ProxyResponseHandler h resp).1.1 in
  ShouldRecordRequest (selector h)
    {| OperationName := "someOperation"; Variables := "";
       Query := "query someOperation { field }"; OperationType_ := "query" |} = false ∧
  nextRequestID h' = nextRequestID h ∧
  requestInfoChan h' = requestInfoChan h ∧
  recorder h' = recorder h ∧
  reporter h' = reporter h ∧
  (ProxyResponseHandler h resp).1.2 = resp ∧
  (ProxyResponseHandler h resp).2 = None.
Proof.
  split; [reflexivity|].
  apply (rejected_operation_changes_nothing rejectedExchange.1 rejectedExchange.2
           someOperation
           {| OperationName := "someOperation"; Variables := "";
              Query := "query someOperation { field }"; OperationType_ := "query" |}).
  - reflexivity.
  - reflexivity.
  - discriminate.
  - reflexivity.
  - reflexivity.
Defined.

Lemma stray_entry_fails_listing_witness :
  strayStore !! RootPath out = Some {[ "request-000001" := ∅; "notes.txt" := ∅ ]} ∧
  FindStringSubmatch "notes.txt" = [] ∧
  (∃ e, GetAllRequestIDs out strayStore = Err e) ∧
  (∃ e, NextRequestID_ out strayStore = Err e) ∧
  (∀ host endpoint snapshotter selector reporter requestInfoChan,
     ∃ e, NewHandler (R := Recorder * FS) host endpoint snapshotter (out, strayStore)
            selector reporter requestInfoChan = Err e).
Proof.
  split; [reflexivity|]. split; [reflexivity|].
  apply (stray_entry_fails_listing out strayStore
           {[ "request-000001" := ∅; "notes.txt" := ∅ ]} "notes.txt").
  - reflexivity.
  - exists ∅. reflexivity.
  - apply FindStringSubmatch_nil. reflexivity.
Defined.

Lemma bootstrap_runs_on_empty_listing_witness :
  let s := mainServer (testSnapshotter "bootstrap" None "info") in
  NextRequestID_ (server.recorder s) emptyStore = Ok 0 ∧
  Snapshotter_TakeSnapshot (server.snapshotter s) GraphQLRequest_zero = Ok "bootstrap" ∧
  (server.takeInitialSnapshotIfNeeded s emptyStore).2 = None ∧
  snapshot_file (server.recorder s)
    (server.takeInitialSnapshotIfNeeded s emptyStore).1.2 0 = Some "bootstrap" ∧
  NextRequestID_ (server.recorder s) snapshotStore = Ok 4 ∧
  4 ≠ 0 ∧
  server.takeInitialSnapshotIfNeeded s snapshotStore = (s, snapshotStore, None).
Proof.
  intros s.
  destruct (bootstrap_runs_on_empty_listing s emptyStore) as (_ & _ & _ & Hrun).
  destruct (bootstrap_runs_on_empty_listing s snapshotStore) as (_ & Hskip & _).
  split; [reflexivity|]. split; [reflexivity|].
  split; [apply (proj2 (Hrun eq_refl) "bootstrap" eq_refl)|].
  split; [apply (proj2 (Hrun eq_refl) "bootstrap" eq_refl)|].
  split; [reflexivity|]. split; [lia|].
  apply (Hskip 4); [reflexivity|lia].
Defined.

Lemma snapshot_failure_reported_write_failure_discarded_witness :
  let h := failingSnapshotExchange.1 in
  let resp := failingSnapshotExchange.2 in
  accepted h resp mutationToRecord mutationDecoded "some content from the origin" ∧
  ShouldSnapshotRequest (selector h) mutationDecoded = true ∧
  Snapshotter_TakeSnapshot (snapshotter h) mutationDecoded
    = Err (ErrorString "exit status 1") ∧
  (ProxyResponseHandler h resp).2 = None ∧
  ("error", "exit status 1") ∈ reporter (ProxyResponseHandler h resp).1.1.
Proof.
  intros h resp.
  assert (accepted h resp mutationToRecord mutationDecoded
            "some content from the origin") as Hacc.
  { repeat split; try reflexivity. discriminate. }
  split; [exact Hacc|]. split; [reflexivity|]. split; [reflexivity|].
  destruct (snapshot_failure_reported_write_failure_discarded h resp)
    as (Hnil & Hrep & _).
  split; [exact Hnil|].
  apply (Hrep mutationToRecord mutationDecoded "some content from the origin"
           (ErrorString "exit status 1") Hacc); reflexivity.
Defined.


Lemma snapshotStore_canonical : canonical_store out snapshotStore.
Proof.
  intros entries [= <-]. apply (bool_decide_unpack _). vm_compute. exact I.
Defined.

Lemma listing_last_plus_one_witness :
  GetAllRequestIDs out snapshotStore = Ok [1; 2; 3] ∧
  canonical_store out snapshotStore ∧
  (0 ∉ [1; 2; 3]) ∧
  NextRequestID_ out snapshotStore = Ok (List.last [1; 2; 3] 0 + 1) ∧
  StronglySorted Z.lt [1; 2; 3] ∧
  NextRequestID_ out snapshotStore = Ok (max_ids [1; 2; 3] + 1).
Proof.
  split; [reflexivity|]. split; [exact snapshotStore_canonical|].
  destruct (listing_last_plus_one out snapshotStore [1; 2; 3] eq_refl)
    as (Hzero & Hlast & Hcanon).
  split; [exact Hzero|]. split; [exact Hlast|].
  exact (Hcanon snapshotStore_canonical).
Defined.

Lemma init_state_follows_listing_witness :
  let records :=
    [event 1 queryDecoded false false;
     event 2 mutationDecoded true true;
     event 3 queryDecoded false false] in
  tool._getAllRequestInfo out snapshotStore = Ok records ∧
  canonical_store out snapshotStore ∧
  GetAllRequestIDs out snapshotStore = Ok (RequestID <$> records) ∧
  Forall (λ info,
            WillSnapshot info = ShapshotComplete info ∧
            (WillSnapshot info = true
             ↔ is_Some (snapshot_file out snapshotStore (RequestID info)))) records ∧
  StronglySorted Z.lt (RequestID <$> records).
Proof.
  intros records.
  split; [reflexivity|]. split; [exact snapshotStore_canonical|].
  assert (tool._getAllRequestInfo out snapshotStore = Ok records) as Hrun
    by reflexivity.
  destruct (init_state_follows_listing out snapshotStore records Hrun)
    as (Hids & Hflags & Hcanon).
  split; [exact Hids|]. split; [exact Hflags|].
  exact (Hcanon snapshotStore_canonical).
Defined.

End Witnesses.


(** * Further properties of the code *)

(** ** Identifiers and their directory names *)

Section Format.

Local Open Scope Z_scope.

Lemma digit_value_digit_char d : 0 ≤ d ≤ 9 → digit_value (digit_char d) = Some d.
Proof.
  intros Hd.
  assert (d = 0 ∨ d = 1 ∨ d = 2 ∨ d = 3 ∨ d = 4 ∨ d = 5 ∨ d = 6 ∨ d = 7 ∨ d = 8 ∨ d = 9)
    as Hcases by lia.
  repeat (destruct Hcases as [-> | Hcases]; [reflexivity|]). by subst.
Qed.

Lemma string_length_app s t : String.length (s +:+ t) = (String.length s + String.length t)%nat.
Proof.
  induction s as [|c s IH]; [done|].
  change (String c s +:+ t) with (String c (s +:+ t)). simpl. by rewrite IH.
Qed.

Lemma all_digits_app s t : all_digits (s +:+ t) = all_digits s && all_digits t.
Proof.
  induction s as [|c s IH]; [done|].
  change (String c s +:+ t) with (String c (s +:+ t)). simpl.
  by rewrite IH, andb_assoc.
Qed.

(** What [decimal_go] prepends to [acc]: the digits of [n], as many as
    [n] has. *)
Lemma decimal_go_spec fuel : ∀ n acc a,
  (1 ≤ fuel)%nat → 0 ≤ n < 2 ^ Z.of_nat fuel →
  all_digits acc = true → digits_value 0 acc = Some a →
  all_digits (decimal_go fuel n acc) = true ∧
  digits_value 0 (decimal_go fuel n acc)
    = Some (n * 10 ^ Z.of_nat (String.length acc) + a) ∧
  ∀ k, (1 ≤ k)%nat →
    (n < 10 ^ Z.of_nat k →
     (String.length (decimal_go fuel n acc) ≤ String.length acc + k)%nat) ∧
    (10 ^ Z.of_nat (k - 1) ≤ n →
     (String.length acc + k ≤ String.length (decimal_go fuel n acc))%nat).
Proof.
  induction fuel as [|fuel IH]; intros n acc a Hfuel Hn Hacc Ha; [lia|].
  cbn [decimal_go].
  assert (0 ≤ n mod 10 ≤ 9) as Hmod by (pose proof (Z.mod_pos_bound n 10); lia).
  pose proof (digit_value_digit_char _ Hmod) as Hdigit.
  destruct (n <? 10) eqn:Hsmall.
  - apply Z.ltb_lt in Hsmall. rewrite Z.mod_small in * by lia.
    split; [|split].
    + simpl. unfold is_digit. by rewrite Hdigit, Hacc.
    + simpl. rewrite Hdigit. rewrite (digits_value_acc _ _ _ Ha). f_equal; lia.
    + intros k Hk. simpl. split; [lia|]. intros Hge.
      destruct (decide (k = 1%nat)) as [->|]; [lia|]. exfalso.
      assert (10 ^ 1 ≤ 10 ^ Z.of_nat (k - 1)) by (apply Z.pow_le_mono_r; lia). lia.
  - apply Z.ltb_ge in Hsmall.
    set (acc' := String (digit_char (n mod 10)) acc).
    assert (all_digits acc' = true) as Hacc'
      by (simpl; unfold is_digit; by rewrite Hdigit, Hacc).
    assert (digits_value 0 acc'
            = Some ((n mod 10) * 10 ^ Z.of_nat (String.length acc) + a)) as Ha'.
    { simpl. rewrite Hdigit. rewrite (digits_value_acc _ _ _ Ha). f_equal; lia. }
    assert (1 ≤ n / 10) as Hdiv by (apply Z.div_le_lower_bound; lia).
    assert (n / 10 < 2 ^ Z.of_nat fuel) as Hlt.
    { apply Z.div_lt_upper_bound; [lia|].
      rewrite Nat2Z.inj_succ, Z.pow_succ_r in Hn by lia. lia. }
    assert (1 ≤ fuel)%nat as Hfuel'.
    { destruct fuel; [|lia]. simpl in Hlt. lia. }
    assert (0 ≤ n / 10 < 2 ^ Z.of_nat fuel) as Hrange by lia.
    destruct (IH (n / 10) acc' _ Hfuel' Hrange Hacc' Ha') as (Hall & Hval & Hlen).
    split; [done|]. split.
    + rewrite Hval. f_equal. unfold acc'. cbn [String.length].
      rewrite Nat2Z.inj_succ, Z.pow_succ_r by lia.
      pose proof (Z.div_mod n 10 ltac:(lia)). nia.
    + intros k Hk. unfold acc' in Hlen. cbn [String.length] in Hlen.
      destruct (decide (k = 1%nat)) as [->|Hk1].
      * split; [intros ?; change (10 ^ Z.of_nat 1) with 10 in *; lia|].
        intros _. destruct (Hlen 1%nat ltac:(lia)) as [_ Hge].
        assert (10 ^ Z.of_nat (1 - 1) ≤ n / 10) as Hone
          by (change (10 ^ Z.of_nat (1 - 1)) with 1; lia).
        specialize (Hge Hone). unfold acc'. lia.
      * destruct (Hlen (k - 1)%nat ltac:(lia)) as [Hle Hge]. split.
        -- intros Hup.
           assert (n / 10 < 10 ^ Z.of_nat (k - 1)) as Hup'.
           { apply Z.div_lt_upper_bound; [lia|].
             rewrite <- Z.pow_succ_r by lia. rewrite <- Nat2Z.inj_succ.
             by replace (S (k - 1)) with k by lia. }
           specialize (Hle Hup'). unfold acc'. lia.
        -- intros Hlow.
           assert (10 ^ Z.of_nat (k - 1 - 1) ≤ n / 10) as Hlow'.
           { apply Z.div_le_lower_bound; [lia|].
             rewrite <- Z.pow_succ_r by lia. rewrite <- Nat2Z.inj_succ.
             by replace (S (k - 1 - 1)) with (k - 1)%nat by lia. }
           specialize (Hge Hlow'). unfold acc'. lia.
Qed.

Lemma decimal_spec n :
  0 ≤ n →
  all_digits (decimal n) = true ∧
  digits_value 0 (decimal n) = Some n ∧
  ∀ k, (1 ≤ k)%nat →
    (n < 10 ^ Z.of_nat k → (String.length (decimal n) ≤ k)%nat) ∧
    (10 ^ Z.of_nat (k - 1) ≤ n → (k ≤ String.length (decimal n))%nat).
Proof.
  intros Hn. unfold decimal.
  assert (0 ≤ n < 2 ^ Z.of_nat (S (Z.to_nat (Z.log2 n)))) as Hfuel.
  { split; [done|]. rewrite Nat2Z.inj_succ, Z2Nat.id by apply Z.log2_nonneg.
    destruct (decide (n = 0)) as [->|]; [done|].
    pose proof (Z.log2_spec n) as Hlog. lia. }
  assert (1 ≤ S (Z.to_nat (Z.log2 n)))%nat as Hone by lia.
  destruct (decimal_go_spec _ n "" 0 Hone Hfuel eq_refl eq_refl)
    as (Hall & Hval & Hlen).
  split; [done|]. split.
  - rewrite Hval. f_equal. simpl. lia.
  - intros k Hk. destruct (Hlen k Hk) as [Hle Hge]. simpl in Hle, Hge. done.
Qed.

Lemma zeros_spec k :
  String.length (zeros k) = k ∧ all_digits (zeros k) = true ∧
  ∀ s, digits_value 0 (zeros k +:+ s) = digits_value 0 s.
Proof.
  induction k as [|k (Hl & Ha & Hv)]; [done|]. simpl. split; [by rewrite Hl|].
  split; [done|]. intros s.
  change (String "0" (zeros k) +:+ s) with (String "0" (zeros k +:+ s)).
  simpl. apply Hv.
Qed.

(** The zero-padded rendering of a number that is not negative. *)
Lemma Sprintf_06d_nonneg n :
  0 ≤ n →
  all_digits (Sprintf_06d n) = true ∧
  digits_value 0 (Sprintf_06d n) = Some n ∧
  (6 ≤ String.length (Sprintf_06d n))%nat ∧
  (n ≤ 999999 → String.length (Sprintf_06d n) = 6%nat) ∧
  (1000000 ≤ n → Sprintf_06d n = decimal n).
Proof.
  intros Hn. unfold Sprintf_06d.
  assert ((n <? 0) = false) as -> by (apply Z.ltb_ge; lia).
  destruct (decimal_spec n Hn) as (Hall & Hval & Hlen).
  destruct (zeros_spec (6 - String.length (decimal n))) as (Hzl & Hza & Hzv).
  split; [by rewrite all_digits_app, Hza, Hall|].
  split; [by rewrite Hzv|].
  rewrite string_length_app, Hzl. split; [lia|]. split.
  - intros Hup. destruct (Hlen 6%nat ltac:(lia)) as [Hle _].
    change (10 ^ Z.of_nat 6) with 1000000 in Hle. specialize (Hle ltac:(lia)). lia.
  - intros Hlow. destruct (Hlen 7%nat ltac:(lia)) as [_ Hge].
    change (10 ^ Z.of_nat (7 - 1)) with 1000000 in Hge. specialize (Hge Hlow).
    by replace (6 - String.length (decimal n))%nat with 0%nat by lia.
Qed.

Lemma all_digits_head c s : all_digits (String c s) = true → is_digit c = true.
Proof. simpl. by intros [? _]%andb_true_iff. Qed.

Lemma Atoi_digits s v :
  s ≠ "" → all_digits s = true → digits_value 0 s = Some v → v ≤ maxInt →
  0 ≤ v → Atoi s = Ok v.
Proof.
  intros Hne Hall Hv Hmax Hmin. destruct s as [|c s]; [done|].
  rewrite (Atoi_unsigned c s (all_digits_head _ _ Hall)), Hv.
  assert ((minInt <=? v) && (v <=? maxInt) = true) as ->; [|done].
  apply andb_true_iff. unfold minInt in *.
  change (2 ^ 63) with 9223372036854775808 in *.
  split; apply Z.leb_le; lia.
Qed.

End Format.

(** ** Listing the store *)

Section Listing.

Local Open Scope Z_scope.

Lemma dir_names_sorted entries : StronglySorted String.le (dir_names entries).
Proof. apply StronglySorted_merge_sort; apply _. Qed.

Lemma dir_names_NoDup entries : NoDup (dir_names entries).
Proof.
  unfold dir_names. rewrite merge_sort_Permutation. apply NoDup_fst_map_to_list.
Qed.

Lemma elem_of_dir_names entries name :
  name ∈ dir_names entries ↔ is_Some (entries !! name).
Proof. apply elem_of_sorted_names. Qed.

Lemma StronglySorted_filter {A} (R : relation A) (P : A → Prop)
    `{∀ x, Decision (P x)} l :
  StronglySorted R l → StronglySorted R (filter P l).
Proof.
  induction 1 as [|x l Hsorted IH Hx]; [constructor|].
  rewrite filter_cons. destruct (decide (P x)); [|done].
  constructor; [done|]. apply Forall_forall. intros y [_ Hy]%list_elem_of_filter.
  rewrite Forall_forall in Hx. by apply Hx.
Qed.

(** The names of a directory are determined by which names it holds. *)
Lemma sorted_names_unique (l1 l2 : list string) :
  StronglySorted String.le l1 → StronglySorted String.le l2 →
  NoDup l1 → NoDup l2 → (∀ x, x ∈ l1 ↔ x ∈ l2) → l1 = l2.
Proof.
  intros H1 H2 Hn1 Hn2 Hel.
  apply (StronglySorted_unique String.le); [done|done|].
  by apply NoDup_Permutation.
Qed.

Lemma dir_names_insert_existing entries name files :
  is_Some (entries !! name) → dir_names (<[name := files]> entries) = dir_names entries.
Proof.
  intros Hin.
  apply sorted_names_unique;
    [apply dir_names_sorted|apply dir_names_sorted
    |apply dir_names_NoDup|apply dir_names_NoDup|].
  intros x. rewrite !elem_of_dir_names, lookup_insert.
  case_decide; subst; [|done]. split; [done|]. intros _. eauto.
Qed.

Lemma dir_names_insert_new entries name files :
  entries !! name = None →
  filter (λ x, x ≠ name) (dir_names (<[name := files]> entries)) = dir_names entries.
Proof.
  intros Hnew. apply sorted_names_unique.
  - apply StronglySorted_filter, dir_names_sorted.
  - apply dir_names_sorted.
  - apply NoDup_filter, dir_names_NoDup.
  - apply dir_names_NoDup.
  - intros x. rewrite list_elem_of_filter, !elem_of_dir_names, lookup_insert.
    case_decide; subst.
    + split; [by intros [? _]|]. rewrite Hnew. by intros [? ?].
    + split; [by intros [_ ?]|done].
Qed.

(** The loop of [GetAllRequestIDs] succeeds exactly when every name
    contains the pattern, with the numbers read off the names, in their
    order, zero left out. *)
Lemma GetAllRequestIDs_loop_Ok names : ∀ acc ids,
  GetAllRequestIDs_loop names acc = Ok ids ↔
  Forall (λ name, FindStringSubmatch name ≠ []) names ∧
  ids = acc ++ filter (λ id, id ≠ 0) (name_id <$> names).
Proof.
  induction names as [|name names IH]; intros acc ids.
  - simpl. rewrite app_nil_r. split; [by intros [= <-]|by intros [_ ->]].
  - cbn [GetAllRequestIDs_loop]. rewrite Forall_cons, fmap_cons, filter_cons.
    destruct (FindStringSubmatch_cases name) as [Hnil|(d & Hm & Hl & Hd)].
    + rewrite Hnil. simpl. split; [discriminate|]. by intros [[? _] _].
    + destruct (Atoi_six_digits d Hl Hd) as (v & Hatoi & Hv & _).
      assert (name_id name = v) as -> by (unfold name_id; by rewrite Hm, Hv).
      rewrite Hm. cbn [length Nat.eqb nth]. rewrite Hatoi.
      rewrite IH. destruct (v =? 0) eqn:Hz.
      * apply Z.eqb_eq in Hz. rewrite decide_False by lia.
        split; [by intros [? ->]|by intros [[_ ?] ->]].
      * apply Z.eqb_neq in Hz. rewrite decide_True by done.
        rewrite <- app_assoc. simpl.
        split; [by intros [? ->]|by intros [[_ ?] ->]].
Qed.

Lemma GetAllRequestIDs_Ok r fs ids :
  GetAllRequestIDs r fs = Ok ids ↔
  ∃ entries,
    fs !! RootPath r = Some entries ∧
    Forall (λ name, FindStringSubmatch name ≠ []) (dir_names entries) ∧
    ids = filter (λ id, id ≠ 0) (name_id <$> dir_names entries).
Proof.
  unfold GetAllRequestIDs, ReadDir. destruct (fs !! RootPath r) as [entries|].
  - fold (dir_names entries).
    destruct (dir_names entries) as [|n names] eqn:Hnames.
    + simpl. split.
      * intros [= <-]. exists entries. rewrite Hnames. by repeat split.
      * intros (? & [= <-] & _ & ->). by rewrite Hnames.
    + change (length (n :: names) =? 0)%nat with false. cbv iota.
      rewrite GetAllRequestIDs_loop_Ok. simpl app. split.
      * intros [? ->]. exists entries. by rewrite Hnames.
      * intros (? & [= <-] & Hall & ->). rewrite Hnames in Hall |- *. done.
  - split; [discriminate|]. by intros (? & [=] & _).
Qed.

Lemma name_id_FormatRequestID r id :
  0 ≤ id ≤ 999999 →
  FindStringSubmatch ("request-" +:+ FormatRequestID_ r id) ≠ [] ∧
  name_id ("request-" +:+ FormatRequestID_ r id) = id ∧
  is_canonical ("request-" +:+ FormatRequestID_ r id) = true.
Proof.
  intros Hid. unfold FormatRequestID_.
  destruct (Sprintf_06d_nonneg id ltac:(lia)) as (Hall & Hval & _ & Hlen & _).
  specialize (Hlen ltac:(lia)).
  pose proof (FindStringSubmatch_canonical _ Hlen Hall) as Hm.
  split; [by rewrite Hm|]. split.
  - unfold name_id. by rewrite Hm, Hval.
  - apply is_canonical_spec. eauto.
Qed.

Lemma elem_of_listing (ids : list Z) (names : list string) (j : Z) :
  ids = filter (λ id, id ≠ 0) (name_id <$> names) →
  j ∈ ids ↔ j ≠ 0 ∧ ∃ name, name ∈ names ∧ name_id name = j.
Proof.
  intros ->. rewrite list_elem_of_filter, list_elem_of_fmap. split.
  - intros [Hne (name & -> & Hin)]. eauto.
  - intros [Hne (name & Hin & <-)]. eauto.
Qed.

Lemma saveFile_entries r fs id filename content :
  ∃ files,
    (saveFile r fs id filename content).1 !! RootPath r
    = Some (<["request-" +:+ FormatRequestID_ r id := files]>
              (default ∅ (fs !! RootPath r))).
Proof. rewrite saveFile_eq. simpl. rewrite lookup_insert_eq. eauto. Qed.

Lemma max_ids_le ids b : 0 ≤ b → Forall (λ id, id ≤ b) ids → max_ids ids ≤ b.
Proof.
  intros Hb. induction 1 as [|x l Hx Hall IH]; simpl; [done|].
  fold (max_ids l). lia.
Qed.

Lemma listing_skips_zero_name (names : list string) (dir : string) :
  name_id dir = 0 →
  filter (λ id, id ≠ 0) (name_id <$> names)
  = filter (λ id, id ≠ 0) (name_id <$> filter (λ x, x ≠ dir) names).
Proof.
  intros Hname. induction names as [|name names IH]; [done|].
  rewrite fmap_cons, !filter_cons.
  destruct (decide (name ≠ dir)) as [Hne|Heq].
  - rewrite fmap_cons, filter_cons. by rewrite IH.
  - assert (name = dir) as -> by (by destruct (decide (name = dir))).
    rewrite Hname. by rewrite decide_False by lia.
Qed.

End Listing.

Section StoreProperties.

Local Open Scope Z_scope.

(** X1.  Parsing the directory suffix of an identifier gives the identifier
    back: [strconv.Atoi] inverts [FormatRequestID] on every [int], negative
    ones and ones of more than six digits included. *)
Theorem FormatRequestID_Atoi (r : Recorder) (id : Z) :
  minInt ≤ id ≤ maxInt → Atoi (FormatRequestID_ r id) = Ok id.
Proof.
  intros Hid. unfold FormatRequestID_.
  destruct (decide (0 ≤ id)) as [Hpos|Hneg].
  - destruct (Sprintf_06d_nonneg id Hpos) as (Hall & Hval & Hlen & _).
    apply Atoi_digits; [|done|done|lia|done].
    intros Hempty. rewrite Hempty in Hlen. simpl in Hlen. lia.
  - unfold Sprintf_06d. assert ((id <? 0) = true) as -> by (apply Z.ltb_lt; lia).
    destruct (decimal_spec (- id) ltac:(lia)) as (Hall & Hval & Hlen).
    destruct (zeros_spec (5 - String.length (decimal (- id)))) as (_ & Hza & Hzv).
    set (body := zeros (5 - String.length (decimal (- id))) +:+ decimal (- id)).
    change ("-" +:+ body) with (String "-" body).
    assert (digits_value 0 body = Some (- id)) as Hbody by (unfold body; by rewrite Hzv).
    assert (body ≠ "") as Hne.
    { intros Hempty. destruct (Hlen 1%nat ltac:(lia)) as [_ Hge].
      assert (10 ^ Z.of_nat (1 - 1) ≤ - id) as Hone
        by (change (10 ^ Z.of_nat (1 - 1)) with 1; lia).
      specialize (Hge Hone).
      assert (String.length body = 0%nat) as Hzero by by rewrite Hempty.
      unfold body in Hzero. rewrite string_length_app in Hzero. lia. }
    unfold Atoi. destruct body as [|c body']; [done|]. rewrite Hbody.
    replace (- - id) with id by lia.
    assert ((minInt <=? id) && (id <=? maxInt) = true) as ->; [|done].
    apply andb_true_iff. split; apply Z.leb_le; lia.
Qed.

Lemma FormatRequestID_inj r id id' :
  minInt ≤ id ≤ maxInt → minInt ≤ id' ≤ maxInt →
  FormatRequestID_ r id = FormatRequestID_ r id' → id = id'.
Proof.
  intros Hid Hid' Heq.
  pose proof (FormatRequestID_Atoi r id Hid) as H1.
  pose proof (FormatRequestID_Atoi r id' Hid') as H2.
  rewrite Heq, H2 in H1. by injection H1.
Qed.

(** X2.  A save succeeds and is read back under the same identifier and
    file name; every other file of the store, of the same identifier or of
    another one, reads as before.  [SaveRequest], [SaveResponse],
    [SaveSnapshot] and [GetRequest], [GetResponse] are [saveFile] and
    [loadFile] at the three file names. *)
Theorem saveFile_loadFile (r : Recorder) (fs : FS) (id : Z) (filename content : string) :
  (saveFile r fs id filename content).2 = None ∧
  loadFile r (saveFile r fs id filename content).1 id filename = Ok content ∧
  ∀ id' filename',
    minInt ≤ id ≤ maxInt → minInt ≤ id' ≤ maxInt →
    id' ≠ id ∨ filename' ≠ filename →
    loadFile r (saveFile r fs id filename content).1 id' filename'
    = loadFile r fs id' filename'.
Proof.
  destruct (saveFile_file_at r fs id filename content) as [Hnil Hfile].
  split; [done|]. split.
  - rewrite loadFile_file_at, Hfile. by rewrite decide_True.
  - intros id' filename' Hid Hid' Hother.
    rewrite !loadFile_file_at, Hfile.
    rewrite decide_False; [done|]. intros (_ & Hdir & Hf).
    destruct Hother as [Hne|Hne]; [|done]. apply Hne.
    apply (FormatRequestID_inj r); [done|done|].
    by apply (inj (String.app "request-")) in Hdir.
Qed.

(** X3.  Saving a file a second time replaces it: the store is the one the
    second save alone produces. *)
Theorem saveFile_overwrite (r : Recorder) (fs : FS) (id : Z)
    (filename first second : string) :
  (saveFile r (saveFile r fs id filename first).1 id filename second).1
  = (saveFile r fs id filename second).1.
Proof.
  rewrite !saveFile_eq. simpl. rewrite !lookup_insert_eq. simpl.
  rewrite !lookup_insert_eq. simpl. by rewrite !insert_insert_eq.
Qed.

Lemma saved_identifier_is_listed_aux (r : Recorder) (fs : FS) (id : Z)
    (filename content : string) :
  1 ≤ id ≤ 999999 →
  (∀ ids, GetAllRequestIDs r fs = Ok ids →
     ∃ ids', GetAllRequestIDs r (saveFile r fs id filename content).1 = Ok ids' ∧
             ∀ j, j ∈ ids' ↔ j = id ∨ j ∈ ids) ∧
  (fs !! RootPath r = None →
   GetAllRequestIDs r (saveFile r fs id filename content).1 = Ok [id]).
Proof.
  intros Hid.
  destruct (name_id_FormatRequestID r id ltac:(lia)) as (Hmatch & Hname & _).
  destruct (saveFile_entries r fs id filename content) as [files Hroot].
  set (dir := "request-" +:+ FormatRequestID_ r id) in *. clearbody dir.
  split.
  - intros ids (entries & Hfs & Hall & Hids)%GetAllRequestIDs_Ok.
    rewrite Hfs in Hroot. simpl in Hroot.
    eexists. split.
    + apply GetAllRequestIDs_Ok. eexists. split; [exact Hroot|]. split; [|done].
      apply Forall_forall. intros name Hin.
      apply elem_of_dir_names in Hin. rewrite lookup_insert in Hin.
      case_decide; subst; [done|].
      rewrite Forall_forall in Hall. by apply Hall, elem_of_dir_names.
    + intros j. rewrite (elem_of_listing _ _ j eq_refl), (elem_of_listing _ _ j Hids).
      split.
      * intros [Hne (name & Hin & <-)]. apply elem_of_dir_names in Hin.
        rewrite lookup_insert in Hin. case_decide; subst; [by left|].
        right. split; [done|]. exists name. by rewrite elem_of_dir_names.
      * intros [->|[Hne (name & Hin & <-)]].
        -- split; [lia|]. exists dir. split; [|done].
           apply elem_of_dir_names. rewrite lookup_insert_eq. eauto.
        -- split; [done|]. exists name. split; [|done].
           apply elem_of_dir_names. apply elem_of_dir_names in Hin.
           rewrite lookup_insert. case_decide; eauto.
  - intros Hnone. rewrite Hnone in Hroot. simpl in Hroot.
    apply GetAllRequestIDs_Ok. eexists. split; [exact Hroot|].
    assert (dir_names (<[dir := files]> (∅ : gmap string (gmap string string))) = [dir])
      as ->.
    { apply sorted_names_unique;
        [apply dir_names_sorted|repeat constructor|apply dir_names_NoDup
        |apply NoDup_singleton|].
      intros x. rewrite elem_of_dir_names, list_elem_of_singleton, lookup_insert.
      case_decide; subst; [split; eauto|]. rewrite lookup_empty.
      split; [by intros [? ?]|done]. }
    split; [by repeat constructor|].
    simpl. rewrite filter_cons, Hname. rewrite decide_True by lia. done.
Qed.

(** X4.  After a file is saved for an identifier between 1 and 999999 in a
    store that could be listed, the store can still be listed and lists
    that identifier together with exactly those it listed before; in a
    store whose root did not exist, the root is created and the listing is
    that identifier alone. *)
Theorem saved_identifier_is_listed (r : Recorder) (fs : FS) (id : Z)
    (filename content : string) :
  1 ≤ id ≤ 999999 →
  (∀ ids, GetAllRequestIDs r fs = Ok ids →
     ∃ ids', GetAllRequestIDs r (saveFile r fs id filename content).1 = Ok ids' ∧
             ∀ j, j ∈ ids' ↔ j = id ∨ j ∈ ids) ∧
  (fs !! RootPath r = None →
   GetAllRequestIDs r (saveFile r fs id filename content).1 = Ok [id]).
Proof. apply saved_identifier_is_listed_aux. Qed.

Lemma listing_ignores_zero (r : Recorder) (fs : FS) (ids : list Z)
    (filename content : string) :
  GetAllRequestIDs r fs = Ok ids →
  GetAllRequestIDs r (saveFile r fs 0 filename content).1 = Ok ids ∧
  NextRequestID_ r (saveFile r fs 0 filename content).1 = NextRequestID_ r fs.
Proof.
  intros Hids.
  assert (GetAllRequestIDs r (saveFile r fs 0 filename content).1 = Ok ids) as Hafter.
  { destruct (name_id_FormatRequestID r 0 ltac:(lia)) as (Hmatch & Hname & _).
    destruct (saveFile_entries r fs 0 filename content) as [files Hroot].
    set (dir := "request-" +:+ FormatRequestID_ r 0) in *.
    apply GetAllRequestIDs_Ok in Hids as (entries & Hfs & Hall & ->).
    rewrite Hfs in Hroot. simpl in Hroot.
    apply GetAllRequestIDs_Ok. eexists. split; [exact Hroot|].
    destruct (entries !! dir) as [old|] eqn:Hdir.
    - rewrite dir_names_insert_existing by eauto. done.
    - pose proof (dir_names_insert_new entries dir files Hdir) as Hfilter.
      set (names' := dir_names (<[dir := files]> entries)) in *.
      rewrite <- Hfilter in Hall |- *. split.
      + apply Forall_forall. intros name Hin.
        destruct (decide (name = dir)) as [->|Hne]; [done|].
        rewrite Forall_forall in Hall. apply Hall. by apply list_elem_of_filter.
      + symmetry. by apply listing_skips_zero_name. }
  split; [done|]. unfold NextRequestID_. by rewrite Hafter, Hids.
Qed.

(** X5.  Whatever is saved under identifier 0, the reserved identifier of
    the bootstrap snapshot, a store that could be listed lists the same
    identifiers afterwards and has the same next identifier. *)
Theorem identifier_zero_is_not_listed (r : Recorder) (fs : FS) (ids : list Z)
    (filename content : string) :
  GetAllRequestIDs r fs = Ok ids →
  GetAllRequestIDs r (saveFile r fs 0 filename content).1 = Ok ids ∧
  NextRequestID_ r (saveFile r fs 0 filename content).1 = NextRequestID_ r fs.
Proof. apply listing_ignores_zero. Qed.

(** X6.  Numbering resumes: in a store in its own layout, once a file has
    been saved under the next identifier [n] (between 1 and 999999), the
    next identifier is [n + 1], and the store is still in its own
    layout. *)
Theorem saving_next_identifier_advances (r : Recorder) (fs : FS) (n : Z)
    (filename content : string) :
  canonical_store r fs →
  NextRequestID_ r fs = Ok n →
  1 ≤ n ≤ 999999 →
  NextRequestID_ r (saveFile r fs n filename content).1 = Ok (n + 1) ∧
  canonical_store r (saveFile r fs n filename content).1.
Proof.
  intros Hcanon Hnext Hn.
  destruct (GetAllRequestIDs r fs) as [ids|e] eqn:Hids;
    [|unfold NextRequestID_ in Hnext; rewrite Hids in Hnext; discriminate].
  pose proof (canonical_listing_sorted r fs ids Hcanon Hids) as Hsorted.
  pose proof (GetAllRequestIDs_bounds r fs ids Hids) as Hbounds.
  rewrite (NextRequestID_last r fs ids Hids) in Hnext.
  destruct ids as [|id0 ids0]; [injection Hnext as <-; lia|].
  assert (n = List.last (id0 :: ids0) 0 + 1) as Hmax by (by injection Hnext).
  rewrite (sorted_last_max id0 ids0 Hsorted) in Hmax
    by (apply Forall_cons in Hbounds as [? _]; lia).
  clear Hnext. set (ids := id0 :: ids0) in *.
  destruct (name_id_FormatRequestID r n ltac:(lia)) as (_ & _ & Hcan).
  destruct (saveFile_entries r fs n filename content) as [files Hroot].
  assert (canonical_store r (saveFile r fs n filename content).1) as Hcanon'.
  { intros entries' Hentries'. rewrite Hroot in Hentries'. injection Hentries' as <-.
    apply map_Forall_insert_2; [done|].
    destruct (fs !! RootPath r) as [entries|] eqn:Hfs; simpl.
    - by apply Hcanon.
    - apply map_Forall_empty. }
  split; [|done].
  destruct (proj1 (saved_identifier_is_listed_aux r fs n filename content ltac:(lia))
              ids Hids) as (ids' & Hids' & Hel).
  pose proof (canonical_listing_sorted r _ ids' Hcanon' Hids') as Hsorted'.
  pose proof (GetAllRequestIDs_bounds r _ ids' Hids') as Hbounds'.
  rewrite (NextRequestID_last r _ ids' Hids').
  destruct ids' as [|id1 ids1]; [exfalso; apply (elem_of_nil n), Hel; by left|].
  f_equal. rewrite (sorted_last_max id1 ids1 Hsorted');
    [|apply Forall_cons in Hbounds' as [? _]; lia].
  assert (max_ids (id1 :: ids1) = n) as ->; [|done].
  apply Z.le_antisymm.
  - apply max_ids_le; [lia|]. apply Forall_forall. intros j [->|Hj]%Hel; [lia|].
    pose proof (max_ids_ge j ids Hj). lia.
  - apply max_ids_ge, Hel. by left.
Qed.

End StoreProperties.

Section StoreProperties2.

Local Open Scope Z_scope.

Lemma NextRequestID_range r fs n :
  NextRequestID_ r fs = Ok n → n = 0 ∨ 2 ≤ n ≤ 1000000.
Proof.
  intros Hnext.
  destruct (GetAllRequestIDs r fs) as [ids|e] eqn:Hids;
    [|unfold NextRequestID_ in Hnext; rewrite Hids in Hnext; discriminate].
  rewrite (NextRequestID_last r fs ids Hids) in Hnext.
  destruct ids as [|id ids]; [left; by injection Hnext|]. right.
  apply GetAllRequestIDs_bounds, Forall_last in Hids.
  set (l := List.last (id :: ids) 0) in *. injection Hnext as <-. lia.
Qed.

(** X7.  Over the file-backed recorder the handler is never built with the
    counter at 1, the one value [NewHandler] takes for a store without
    requests: the counter is 0 or between 2 and 1000000, and every handler
    that is built has reported the warning about existing requests, also
    on an empty store. *)
Theorem NewHandler_always_warns `{Lib GraphQLRequest} (host endpoint : string)
    (snapshotter : Snapshotter) (r : Recorder) (fs : FS) (selector : RequestSelector)
    (reporter0 : Reporter) (requestInfoChan0 : list RequestInfo)
    (h : Handler (Recorder * FS)) :
  NewHandler host endpoint snapshotter (r, fs) selector reporter0 requestInfoChan0 = Ok h →
  NextRequestID_ r fs = Ok (nextRequestID h) ∧
  (nextRequestID h = 0 ∨ 2 ≤ nextRequestID h ≤ 1000000) ∧
  reporter h =
    reporter0 ++ [("warning", "existing requests in output dir, next request id: "
                              +:+ Sprintf_d (nextRequestID h))] ∧
  recorder h = (r, fs) ∧
  requestInfoChan h = requestInfoChan0 ∧
  requestContent h = ∅.
Proof.
  unfold NewHandler. destruct (url_Parse endpoint) as [u|]; [|discriminate].
  change (NextRequestID (r, fs)) with (NextRequestID_ r fs).
  destruct (NextRequestID_ r fs) as [n|] eqn:Hnext; [|discriminate].
  pose proof (NextRequestID_range r fs n Hnext) as Hrange.
  assert ((n =? 1) = false) as -> by (apply Z.eqb_neq; lia).
  intros [= <-]. by simpl.
Qed.

Lemma GetPriorSnapshot_loop_Ok r fs rid rid' k s :
  GetPriorSnapshot_loop r fs rid k = Ok s ↔ GetPriorSnapshot_loop r fs rid' k = Ok s.
Proof.
  induction k as [|k IH]; simpl; [done|].
  destruct (MaybeGetSnapshot r fs (Z.of_nat k)) as [[snapshot|] [err|]]; done.
Qed.

Lemma GetPriorSnapshot_succ (r : Recorder) (fs : FS) (id : Z) :
  0 ≤ id →
  match snapshot_file r fs id with
  | Some s => GetPriorSnapshot r fs (id + 1) = Ok s
  | None => ∀ s, GetPriorSnapshot r fs (id + 1) = Ok s ↔ GetPriorSnapshot r fs id = Ok s
  end.
Proof.
  intros Hid. unfold GetPriorSnapshot.
  assert ((id + 1 <=? 0) = false) as -> by (apply Z.leb_gt; lia).
  replace (Z.to_nat (id + 1)) with (S (Z.to_nat id)) by lia.
  cbn [GetPriorSnapshot_loop]. rewrite Z2Nat.id by done.
  rewrite MaybeGetSnapshot_snapshot_file.
  destruct (snapshot_file r fs id) as [s|]; [done|]. intros s.
  destruct (id <=? 0) eqn:Hzero.
  - apply Z.leb_le in Hzero. assert (id = 0) as -> by lia. simpl. done.
  - apply GetPriorSnapshot_loop_Ok.
Qed.

(** X8.  Resolution of the prior snapshot goes down one identifier at a
    time: for [0 ≤ id], the prior snapshot of [id + 1] is the snapshot of
    [id] when [id] has one, and otherwise whatever the prior snapshot of
    [id] is. *)
Theorem GetPriorSnapshot_successor (r : Recorder) (fs : FS) (id : Z) :
  0 ≤ id →
  match snapshot_file r fs id with
  | Some s => GetPriorSnapshot r fs (id + 1) = Ok s
  | None => ∀ s, GetPriorSnapshot r fs (id + 1) = Ok s ↔ GetPriorSnapshot r fs id = Ok s
  end.
Proof. apply GetPriorSnapshot_succ. Qed.

End StoreProperties2.

(** ** The handler, one call at a time *)

Section HandlerProperties.

Context {R : Type} `{RecorderSaver R} `{Lib GraphQLRequest}.

Local Open Scope Z_scope.

Local Ltac no_events :=
  exists []; rewrite app_nil_r; simpl;
  split; [done|]; split; [lia|]; split; [constructor|done].

Lemma ProxyResponseHandler_events (h : Handler R) (resp : Response) :
  let h' := (ProxyResponseHandler h resp).1.1 in
  ∃ evs,
    requestInfoChan h' = requestInfoChan h ++ evs ∧
    (length evs ≤ 2)%nat ∧
    Forall (λ e, RequestID e = nextRequestID h) evs ∧
    nextRequestID h' =
      match evs with
      | [] => nextRequestID h
      | _ => Go.add (nextRequestID h) 1
      end.
Proof.
  intros h'. subst h'. unfold ProxyResponseHandler.
  destruct (negb (Contains _ _)); [no_events|].
  destruct (String.eqb _ ""); [no_events|].
  destruct (ParseRequest _) as [q|e]; [|no_events].
  destruct (negb (ShouldRecordRequest _ q)); [no_events|].
  destruct (readAndResetResponseContent resp) as [resp1 [body|e]]; [|no_events].
  simpl. destruct (ShouldSnapshotRequest (selector h) q).
  - destruct (TakeSnapshot _ _ _ _ _) as [[rec rep] err]. simpl.
    eexists [_; _]. rewrite <- app_assoc. simpl.
    split; [done|]. split; [lia|]. split; [by repeat constructor|done].
  - simpl. eexists [_]. split; [done|]. split; [simpl; lia|].
    split; [by repeat constructor|done].
Qed.

(** X9.  Handling a response changes the counter exactly when it emits
    Lifecycle Events: it emits none and leaves the counter, or it emits one
    or two, all carrying the value the counter had, and moves the counter
    on by one. *)
Theorem identifier_allocated_iff_event_emitted (h : Handler R) (resp : Response) :
  let h' := (ProxyResponseHandler h resp).1.1 in
  ∃ evs,
    requestInfoChan h' = requestInfoChan h ++ evs ∧
    (length evs ≤ 2)%nat ∧
    Forall (λ e, RequestID e = nextRequestID h) evs ∧
    nextRequestID h' =
      match evs with
      | [] => nextRequestID h
      | _ => Go.add (nextRequestID h) 1
      end.
Proof. apply ProxyResponseHandler_events. Qed.



(** X11.  An exchange on a path with the marker leaves no entry behind:
    when the transport answers the outgoing request, the correlation map
    after [ServeHTTP] is the map before without the key of the request,
    whatever the handler did with the response. *)
Theorem matched_exchange_reclaims_entry (h : Handler R)
    (RoundTrip : Request → result Response) (r : Request) (resp : Response) :
  Contains (URL_Path r) "/backend-graphql/" = true →
  RoundTrip (ProxyDirector h r).2 = Ok resp →
  Request_ resp = (ProxyDirector h r).2 →
  requestContent (ServeHTTP h RoundTrip r).1 = delete (addr r) (requestContent h) ∧
  (requestContent h !! addr r = None →
   requestContent (ServeHTTP h RoundTrip r).1 = requestContent h).
Proof.
  intros Hpath Htrip Hreq.
  assert (requestContent (ServeHTTP h RoundTrip r).1
          = delete (addr r) (requestContent h)) as Hdel.
  { unfold ServeHTTP. destruct (ProxyDirector h r) as [h1 outreq] eqn:Hdir.
    simpl in Htrip, Hreq. rewrite Htrip.
    assert (requestContent
              (ProxyResponseHandler h1 resp).1.1
            = delete (addr (Request_ resp)) (requestContent h1)) as Hresp.
    { unfold ProxyResponseHandler.
      assert (URL_Path (Request_ resp) = URL_Path r) as ->
        by (rewrite Hreq; unfold ProxyDirector in Hdir; by injection Hdir as <- <-).
      rewrite Hpath. simpl.
      destruct (String.eqb _ ""); [done|].
      destruct (ParseRequest _) as [q|e]; [|done].
      destruct (negb (ShouldRecordRequest _ q)); [done|].
      destruct (readAndResetResponseContent resp) as [resp1 [body|e]]; [|done].
      simpl. destruct (ShouldSnapshotRequest _ q); [|done].
      by destruct (TakeSnapshot _ _ _ _ _) as [[rec rep] err]. }
    destruct (ProxyResponseHandler h1 resp) as [[h2 resp2] [err|]]; simpl in *;
      rewrite Hresp, Hreq; unfold ProxyDirector in Hdir; injection Hdir as <- <-;
      simpl; by rewrite delete_insert_eq. }
  split; [done|]. intros Hfresh. rewrite Hdel. by apply delete_id.
Qed.

(** X12.  A response on a path with the marker for which no request bytes
    are buffered (the key is missing, or the body was empty), or whose
    bytes do not parse, only adds one report: a warning in the first case,
    the parse error in the second.  The counter, the events and the
    recorder are untouched, the response is passed on as it is and the
    handler returns [nil]. *)
Theorem unrecordable_response_only_reports (h : Handler R) (resp : Response) :
  Contains (URL_Path (Request_ resp)) "/backend-graphql/" = true →
  let c := default "" (requestContent h !! addr (Request_ resp)) in
  let h' := (ProxyResponseHandler h resp).1.1 in
  (c = "" ∨ ∃ e, ParseRequest c = Err e) →
  nextRequestID h' = nextRequestID h ∧
  requestInfoChan h' = requestInfoChan h ∧
  recorder h' = recorder h ∧
  (ProxyResponseHandler h resp).1.2 = resp ∧
  (ProxyResponseHandler h resp).2 = None ∧
  (c = "" →
   reporter h' = reporter h ++ [("warning", "no request content, "
                                            +:+ URL_Path (Request_ resp))]) ∧
  (c ≠ "" → ∀ e, ParseRequest c = Err e →
   reporter h' = reporter h ++ [("error", Error e)]).
Proof.
  intros Hpath c h' Hcase. subst h'. unfold ProxyResponseHandler.
  rewrite Hpath. simpl. fold c.
  destruct (String.eqb_spec c "") as [Hempty|Hne].
  - simpl. repeat split; try done; try (intros; congruence).
  - destruct Hcase as [?|[e He]]; [done|]. rewrite He. simpl.
    repeat split; try done; try (intros _ e' [= <-]; done).
Qed.



End HandlerProperties.

(** ** The handler over the file-backed recorder, and start-up *)

Section RecordedProperties.

Context `{Lib GraphQLRequest}.

Local Open Scope Z_scope.

(** X14.  An accepted operation that is to be snapshotted and whose
    snapshot capture succeeds: its request, response and snapshot are in
    the store under the identifier the counter had, two Lifecycle Events
    were emitted for it, [snapshotComplete] false and then true, three
    reports were added, and the prior snapshot of the following identifier
    is this snapshot. *)
Theorem snapshotted_operation_is_stored (h : Handler (Recorder * FS))
    (resp : Response) (c : string) (q : GraphQLRequest) (body b : string) :
  accepted h resp c q body →
  ShouldSnapshotRequest (selector h) q = true →
  Snapshotter_TakeSnapshot (snapshotter h) q = Ok b →
  let id := nextRequestID h in
  let h' := (ProxyResponseHandler h resp).1.1 in
  let r := (recorder h).1 in
  let fs' := (recorder h').2 in
  (recorder h').1 = r ∧
  nextRequestID h' = Go.add id 1 ∧
  GetRequest r fs' id = Ok c ∧
  GetResponse r fs' id = Ok body ∧
  snapshot_file r fs' id = Some b ∧
  requestInfoChan h' =
    requestInfoChan h ++ [event id q true false; event id q true true] ∧
  reporter h' =
    reporter h ++
      [(OperationType_ q, FormatRequestID_ r id +:+ " " +:+ OperationName q);
       ("", "taking a snapshot, " +:+ SnapshotInfo (snapshotter h) +:+ "...");
       ("", "...done")] ∧
  (0 ≤ id → GetPriorSnapshot r fs' (id + 1) = Ok b).
Proof.
  intros Hacc Hwill Hsnap id h' r fs'.
  destruct (ProxyResponseHandler_accepted h resp c q body Hacc)
    as (Hnext & _ & Hchan & Hrep & Hrec & _).
  rewrite Hwill, Hsnap in Hchan, Hrec, Hrep.
  destruct (recorder h) as [r0 fs] eqn:Hr. simpl in r. subst r.
  destruct (saved_request_response r0 fs id c body) as [Hsame Hfiles].
  fold id in Hrec, Hrep. fold h' in Hrec, Hchan, Hrep, Hnext.
  set (saved := (SaveResponse (SaveRequest (r0, fs) id c).1 id body).1) in *.
  destruct saved as [r1 fs1] eqn:Hsaved. simpl in Hsame, Hfiles. subst r1.
  assert (recorder h' = (r0, (saveFile r0 fs1 id "snapshot.txt" b).1)) as Hrec'.
  { rewrite Hrec. simpl. unfold lift_save, SaveSnapshot_. simpl.
    by destruct (saveFile r0 fs1 id "snapshot.txt" b). }
  destruct (saveFile_file_at r0 fs1 id "snapshot.txt" b) as [_ Hsnapfile].
  assert (∀ root dir f,
            file_at fs' root dir f =
            if decide (root = RootPath r0 ∧ dir = "request-" +:+ Sprintf_06d id
                       ∧ f = "snapshot.txt")
            then Some b else file_at fs1 root dir f) as Hfs'.
  { intros root dir f. subst fs'. rewrite Hrec'. simpl. apply Hsnapfile. }
  assert (snapshot_file r0 fs' id = Some b) as Hown.
  { rewrite snapshot_file_file_at, Hfs'. by rewrite decide_True. }
  split; [by rewrite Hrec'|]. split; [done|]. split; [|split].
  - unfold GetRequest. rewrite loadFile_file_at, Hfs', Hfiles.
    rewrite !decide_False by (intros (_ & _ & ?); discriminate).
    by rewrite decide_True.
  - unfold GetResponse. rewrite loadFile_file_at, Hfs', Hfiles.
    rewrite decide_False by (intros (_ & _ & ?); discriminate).
    by rewrite decide_True.
  - split; [done|]. split; [done|]. split; [done|]. intros Hid.
    pose proof (GetPriorSnapshot_succ r0 fs' id Hid) as Hsucc.
    by rewrite Hown in Hsucc.
Qed.

(** X15.  An accepted operation that is not to be snapshotted: its request
    and response are in the store under the identifier the counter had,
    the snapshot file of every identifier is what it was, the Snapshot
    Provider's outcome plays no part, and exactly one Lifecycle Event and
    one report were added. *)
Theorem recorded_operation_without_snapshot (h : Handler (Recorder * FS))
    (resp : Response) (c : string) (q : GraphQLRequest) (body : string) :
  accepted h resp c q body →
  ShouldSnapshotRequest (selector h) q = false →
  let id := nextRequestID h in
  let h' := (ProxyResponseHandler h resp).1.1 in
  let r := (recorder h).1 in
  let fs' := (recorder h').2 in
  (recorder h').1 = r ∧
  nextRequestID h' = Go.add id 1 ∧
  GetRequest r fs' id = Ok c ∧
  GetResponse r fs' id = Ok body ∧
  (∀ j, snapshot_file r fs' j = snapshot_file r (recorder h).2 j) ∧
  requestInfoChan h' = requestInfoChan h ++ [event id q false false] ∧
  reporter h' =
    reporter h ++
      [(OperationType_ q, FormatRequestID_ r id +:+ " " +:+ OperationName q)].
Proof.
  intros Hacc Hwill id h' r fs'.
  destruct (ProxyResponseHandler_accepted h resp c q body Hacc)
    as (Hnext & _ & Hchan & Hrep & Hrec & _).
  rewrite Hwill in Hchan, Hrec, Hrep.
  destruct (recorder h) as [r0 fs] eqn:Hr. simpl in r. subst r.
  destruct (saved_request_response r0 fs id c body) as [Hsame Hfiles].
  fold id in Hrec, Hrep. fold h' in Hrec, Hchan, Hrep, Hnext.
  split; [by rewrite Hrec|]. split; [done|]. split; [|split; [|split]].
  - unfold GetRequest. subst fs'. rewrite loadFile_file_at, Hrec, Hfiles.
    rewrite decide_False by (intros (_ & _ & ?); discriminate).
    by rewrite decide_True.
  - unfold GetResponse. subst fs'. rewrite loadFile_file_at, Hrec, Hfiles.
    by rewrite decide_True.
  - intros j. subst fs'. rewrite Hrec, !snapshot_file_file_at, Hfiles.
    by rewrite !decide_False by (intros (_ & _ & ?); discriminate).
  - split; [done|]. by rewrite Hrep.
Qed.

(** X16.  Restart against a store with records: when the listing is not
    empty, [ListenAndServe] takes no bootstrap snapshot and leaves the
    store as it is; the handler it builds has its counter at the last
    listed identifier plus one and has reported the warning about existing
    requests. *)
Theorem restart_resumes_numbering (s : server.Server) (fs : FS) (ids : list Z)
    (u : URL) :
  url_Parse "http://127.0.0.1:8081" = Ok u →
  GetAllRequestIDs (server.recorder s) fs = Ok ids →
  ids ≠ [] →
  ∃ h, server.ListenAndServe s fs = Ok h ∧
       nextRequestID h = List.last ids 0 + 1 ∧
       recorder h = (server.recorder s, fs) ∧
       reporter h =
         server.reporter s ++
           [("warning", "existing requests in output dir, next request id: "
                        +:+ Sprintf_d (List.last ids 0 + 1))] ∧
       requestInfoChan h = [] ∧
       requestContent h = ∅.
Proof.
  intros Hurl Hids Hne.
  pose proof (NextRequestID_last _ _ _ Hids) as Hnext.
  destruct ids as [|id ids]; [done|].
  pose proof (Forall_last _ _ _ (GetAllRequestIDs_bounds _ _ _ Hids)) as Hlast.
  cbv beta in Hlast.
  set (n := List.last (id :: ids) 0 + 1) in *.
  assert (n ≠ 0 ∧ n ≠ 1) as [Hn0 Hn1] by (unfold n; lia).
  unfold server.ListenAndServe, NewHandler. rewrite Hurl.
  change (NextRequestID (server.recorder s, fs))
    with (NextRequestID_ (server.recorder s) fs).
  rewrite Hnext. apply Z.eqb_neq in Hn1. rewrite Hn1. simpl.
  unfold server.takeInitialSnapshotIfNeeded. simpl. rewrite Hnext.
  apply Z.eqb_neq in Hn0. rewrite Hn0. simpl. eexists. split; [done|]. done.
Qed.

(** X17.  First start on a store without records: when the listing is
    empty and the Snapshot Provider succeeds, [ListenAndServe] builds a
    handler whose counter is 0, stores the snapshot under identifier 0, and
    the store still lists no record; the sink has received the warning
    about existing requests and the two reports of the snapshot. *)
Theorem first_start_takes_bootstrap (s : server.Server) (fs : FS) (u : URL)
    (b : string) :
  url_Parse "http://127.0.0.1:8081" = Ok u →
  GetAllRequestIDs (server.recorder s) fs = Ok [] →
  Snapshotter_TakeSnapshot (server.snapshotter s) GraphQLRequest_zero = Ok b →
  ∃ h, server.ListenAndServe s fs = Ok h ∧
       nextRequestID h = 0 ∧
       (recorder h).1 = server.recorder s ∧
       snapshot_file (server.recorder s) (recorder h).2 0 = Some b ∧
       GetAllRequestIDs (server.recorder s) (recorder h).2 = Ok [] ∧
       reporter h =
         server.reporter s ++
           [("warning", "existing requests in output dir, next request id: 0");
            ("", "taking a snapshot, " +:+ SnapshotInfo (server.snapshotter s) +:+ "...");
            ("", "...done")].
Proof.
  intros Hurl Hids Hsnap.
  pose proof (NextRequestID_last _ _ _ Hids) as Hnext.
  unfold server.ListenAndServe, NewHandler. rewrite Hurl.
  change (NextRequestID (server.recorder s, fs))
    with (NextRequestID_ (server.recorder s) fs).
  rewrite Hnext. simpl.
  unfold server.takeInitialSnapshotIfNeeded. simpl. rewrite Hnext. simpl.
  unfold server.takeSnapshot. simpl. rewrite Hsnap. unfold SaveSnapshot_.
  destruct (saveFile (server.recorder s) fs 0 "snapshot.txt" b) as [fs' e] eqn:Hsave.
  simpl. eexists. split; [done|]. simpl. split; [done|]. split; [done|].
  pose proof (proj2 (saveFile_file_at (server.recorder s) fs 0 "snapshot.txt" b)
                (RootPath (server.recorder s)) ("request-" +:+ Sprintf_06d 0)
                "snapshot.txt") as Hfile.
  pose proof (proj1 (listing_ignores_zero (server.recorder s) fs []
                       "snapshot.txt" b Hids)) as Hlist.
  rewrite Hsave in Hfile, Hlist. simpl in Hfile, Hlist.
  rewrite decide_True in Hfile by done.
  split; [by rewrite snapshot_file_file_at|]. split; [done|].
  unfold Report. by rewrite <- !app_assoc.
Qed.

(** X18.  When the listing is empty and the Snapshot Provider fails,
    start-up fails with the error of the provider, and the bootstrap step
    has written nothing: the store is unchanged and the only report is the
    announcement of the snapshot, without an [error] report. *)
Theorem failed_bootstrap_aborts_startup (s : server.Server) (fs : FS) (u : URL)
    (e : error) :
  url_Parse "http://127.0.0.1:8081" = Ok u →
  GetAllRequestIDs (server.recorder s) fs = Ok [] →
  Snapshotter_TakeSnapshot (server.snapshotter s) GraphQLRequest_zero = Err e →
  server.ListenAndServe s fs = Err e ∧
  (server.takeInitialSnapshotIfNeeded s fs).2 = Some e ∧
  (server.takeInitialSnapshotIfNeeded s fs).1.2 = fs ∧
  server.reporter (server.takeInitialSnapshotIfNeeded s fs).1.1 =
    server.reporter s ++
      [("", "taking a snapshot, " +:+ SnapshotInfo (server.snapshotter s) +:+ "...")].
Proof.
  intros Hurl Hids Hsnap.
  pose proof (NextRequestID_last _ _ _ Hids) as Hnext. split.
  - unfold server.ListenAndServe, NewHandler. rewrite Hurl.
    change (NextRequestID (server.recorder s, fs))
      with (NextRequestID_ (server.recorder s) fs).
    rewrite Hnext. simpl.
    unfold server.takeInitialSnapshotIfNeeded. simpl. rewrite Hnext. simpl.
    unfold server.takeSnapshot. simpl. by rewrite Hsnap.
  - unfold server.takeInitialSnapshotIfNeeded. rewrite Hnext. simpl.
    unfold server.takeSnapshot. simpl. by rewrite Hsnap.
Qed.

End RecordedProperties.

(** ** The tool: record lookup and live view *)

Section ToolProperties.

Context `{Lib GraphQLRequest}.

Local Open Scope Z_scope.

(** X19.  A record that is served belongs to an identifier of at least 1
    and carries the stored request and response.  Its current snapshot is
    the snapshot of the greatest identifier at or below its own that has
    one: its own snapshot when it has one, with the prior snapshot beside
    it for the diff, and otherwise the prior snapshot, with an empty prior
    snapshot. *)
Theorem served_record_snapshots (rec : Recorder) (fs : FS) (s : string)
    (record : tool.Record_) :
  tool._getRequestRecord rec fs s = inl record →
  ∃ id,
    Atoi s = Ok id ∧ 1 ≤ id ∧ tool.Record_RequestID record = id ∧
    GetRequest rec fs id = Ok (tool.Record_Request record) ∧
    GetResponse rec fs id = Ok (tool.Record_Response record) ∧
    match snapshot_file rec fs id with
    | Some own =>
        tool.CurrentSnapshot record = own ∧
        GetPriorSnapshot rec fs id = Ok (tool.PriorSnapshot record)
    | None =>
        GetPriorSnapshot rec fs id = Ok (tool.CurrentSnapshot record) ∧
        tool.PriorSnapshot record = ""
    end ∧
    ∃ j, 0 ≤ j ≤ id ∧
         snapshot_file rec fs j = Some (tool.CurrentSnapshot record) ∧
         ∀ k, j < k ≤ id → snapshot_file rec fs k = None.
Proof.
  unfold tool._getRequestRecord.
  destruct (String.eqb s ""); [discriminate|].
  destruct (Atoi s) as [id|]; [|discriminate].
  destruct (id =? 0) eqn:Hzero; [discriminate|]. apply Z.eqb_neq in Hzero.
  destruct (GetRequest rec fs id) as [request|] eqn:Hreq; [|discriminate].
  destruct (ParseRequest request) as [q|]; [|discriminate].
  destruct (GetResponse rec fs id) as [response|] eqn:Hresp; [|discriminate].
  rewrite MaybeGetSnapshot_snapshot_file.
  destruct (GetPriorSnapshot rec fs id) as [prior|] eqn:Hprior; [|discriminate].
  assert (1 ≤ id) as Hid.
  { destruct (decide (1 ≤ id)); [done|]. unfold GetPriorSnapshot in Hprior.
    assert ((id <=? 0) = true) as Hle by (apply Z.leb_le; lia).
    rewrite Hle in Hprior. discriminate. }
  pose proof (GetPriorSnapshot_resolves rec fs id Hid) as Hres.
  rewrite Hprior in Hres. destruct Hres as (j & Hj & Hsnap & Hnone).
  destruct (snapshot_file rec fs id) as [own|] eqn:Hown; intros [= <-]; simpl;
    exists id; rewrite ?Hown; do 6 (split; [done|]).
  - exists id. split; [lia|]. split; [done|]. intros k Hk. lia.
  - exists j. split; [lia|]. split; [done|]. intros k Hk.
    destruct (decide (k = id)) as [->|]; [done|]. apply Hnone. lia.
Qed.

(** X20.  The status of the [/request] route.  It is 400 exactly when the
    [id] parameter is missing, is not a number, or is 0; a negative
    identifier is not refused as a bad request but ends in 500; and so does
    an identifier of at least 1 at or below which no identifier has a
    snapshot, whatever else is stored for it.  No other status than 200,
    400 and 500 is written. *)
Theorem request_status (rec : Recorder) (fs : FS) (s : string) :
  ((tool.getRequestRecord rec fs s).1 = 400%nat
   ↔ s = "" ∨ (∃ e, Atoi s = Err e) ∨ Atoi s = Ok 0) ∧
  (∀ id, Atoi s = Ok id → id < 0 →
         tool.getRequestRecord rec fs s = (500%nat, None)) ∧
  (∀ id, Atoi s = Ok id → 1 ≤ id →
         (∀ j, 0 ≤ j < id → snapshot_file rec fs j = None) →
         tool.getRequestRecord rec fs s = (500%nat, None)) ∧
  ((tool.getRequestRecord rec fs s).1 = 200%nat
   ∨ (tool.getRequestRecord rec fs s).1 = 400%nat
   ∨ (tool.getRequestRecord rec fs s).1 = 500%nat).
Proof.
  assert (∀ id, Atoi s = Ok id → s ≠ "") as Hnonempty.
  { intros id Hatoi ->. discriminate. }
  assert (∀ id, Atoi s = Ok id → id ≠ 0 →
            (∀ p, GetPriorSnapshot rec fs id ≠ Ok p) →
            tool.getRequestRecord rec fs s = (500%nat, None)) as Hfail.
  { intros id Hatoi Hne Hprior. unfold tool.getRequestRecord, tool._getRequestRecord.
    pose proof (Hnonempty id Hatoi) as Hs. apply String.eqb_neq in Hs.
    rewrite Hs, Hatoi.
    apply Z.eqb_neq in Hne. rewrite Hne.
    destruct (GetRequest rec fs id) as [request|]; [|done].
    destruct (ParseRequest request) as [q|]; [|done].
    destruct (GetResponse rec fs id) as [response|]; [|done].
    rewrite MaybeGetSnapshot_snapshot_file.
    destruct (GetPriorSnapshot rec fs id) as [prior|]; [|done].
    by destruct (Hprior prior). }
  split; [|split; [|split]].
  - unfold tool.getRequestRecord, tool._getRequestRecord.
    destruct (String.eqb_spec s "") as [->|Hs]; [simpl; split; eauto|].
    destruct (Atoi s) as [id|e] eqn:Hatoi; [|simpl; split; eauto].
    destruct (id =? 0) eqn:Hzero.
    + apply Z.eqb_eq in Hzero as ->. simpl. split; eauto.
    + apply Z.eqb_neq in Hzero.
      assert (¬ (s = "" ∨ (∃ e, Ok id = Err e) ∨ Ok id = Ok 0)) as Hno.
      { intros [?|[[e ?]|[= ?]]]; done. }
      destruct (GetRequest rec fs id) as [request|]; [|simpl; split; [discriminate|done]].
      destruct (ParseRequest request) as [q|]; [|simpl; split; [discriminate|done]].
      destruct (GetResponse rec fs id) as [response|]; [|simpl; split; [discriminate|done]].
      rewrite MaybeGetSnapshot_snapshot_file.
      destruct (GetPriorSnapshot rec fs id) as [prior|]; [|simpl; split; [discriminate|done]].
      destruct (snapshot_file rec fs id); simpl; split; (discriminate || done).
  - intros id Hatoi Hneg. apply (Hfail id Hatoi); [lia|]. intros p.
    unfold GetPriorSnapshot.
    assert ((id <=? 0) = true) as -> by (apply Z.leb_le; lia). discriminate.
  - intros id Hatoi Hid Hnone. apply (Hfail id Hatoi); [lia|]. intros p Hp.
    pose proof (GetPriorSnapshot_resolves rec fs id Hid) as Hres.
    rewrite Hp in Hres. destruct Hres as (j & Hj & Hsnap & _).
    rewrite (Hnone j Hj) in Hsnap. discriminate.
  - unfold tool.getRequestRecord.
    destruct (tool._getRequestRecord rec fs s) as [record|[detail|err]]; simpl; eauto.
Qed.

Lemma _getAllRequestInfo_loop_readable rec fs requestIDs : ∀ acc records,
  tool._getAllRequestInfo_loop rec fs requestIDs acc = Ok records →
  Forall (λ id, ∃ c q, GetRequest rec fs id = Ok c ∧ ParseRequest c = Ok q) requestIDs.
Proof.
  induction requestIDs as [|id ids IH]; intros acc records Hloop; [constructor|].
  simpl in Hloop.
  destruct (GetRequest rec fs id) as [request|] eqn:Hreq; [|discriminate].
  destruct (ParseRequest request) as [q|] eqn:Hparse; [|discriminate].
  rewrite MaybeGetSnapshot_snapshot_file in Hloop.
  constructor; [eauto|]. by eapply IH.
Qed.

Lemma _getAllRequestInfo_Ok rec fs :
  (∃ records, tool._getAllRequestInfo rec fs = Ok records) ↔
  ∃ ids, GetAllRequestIDs rec fs = Ok ids ∧
         Forall (λ id, ∃ c q, GetRequest rec fs id = Ok c ∧ ParseRequest c = Ok q) ids.
Proof.
  unfold tool._getAllRequestInfo. split.
  - intros [records Hrun].
    destruct (GetAllRequestIDs rec fs) as [ids|]; [|discriminate].
    exists ids. split; [done|]. by eapply _getAllRequestInfo_loop_readable.
  - intros (ids & -> & Hall). by apply _getAllRequestInfo_loop_total.
Qed.

(** X21.  The state for a new viewer is computed exactly when the store can
    be listed and the request of every listed identifier can be read and
    parsed: one listed record without a readable request leaves the whole
    state uncomputed. *)
Theorem init_state_needs_every_request (rec : Recorder) (fs : FS) :
  (∃ records, tool._getAllRequestInfo rec fs = Ok records) ↔
  ∃ ids, GetAllRequestIDs rec fs = Ok ids ∧
         Forall (λ id, ∃ c q, GetRequest rec fs id = Ok c ∧ ParseRequest c = Ok q) ids.
Proof. apply _getAllRequestInfo_Ok. Qed.

Lemma WriteMessage_takes conn message n :
  takes conn (S n) →
  (tool.WriteMessage conn message).2 = None ∧
  tool.written (tool.WriteMessage conn message).1 = tool.written conn ++ [message] ∧
  tool.writes_left (tool.WriteMessage conn message).1
    = (λ k, (k - 1)%nat) <$> tool.writes_left conn ∧
  takes (tool.WriteMessage conn message).1 n.
Proof.
  unfold takes, tool.WriteMessage.
  destruct (tool.writes_left conn) as [[|k]|]; simpl; intros Hk; [lia| |done].
  repeat split; [|lia]. f_equal. lia.
Qed.

Lemma worker_delivers (vs : list RequestInfo) : ∀ (h : tool.Handler) c conn,
  tool.connections h !! c = Some conn →
  takes conn (length vs) →
  ∃ conn',
    tool.connections (tool.worker h vs) !! c = Some conn' ∧
    tool.written conn' = tool.written conn ++ (record_message <$> vs) ∧
    tool.writes_left conn'
      = (λ k, (k - length vs)%nat) <$> tool.writes_left conn.
Proof.
  induction vs as [|v vs IH]; intros h c conn Hc Htakes.
  - exists conn. simpl. rewrite app_nil_r. split; [done|]. split; [done|].
    destruct (tool.writes_left conn); simpl; [f_equal; lia|done].
  - change (tool.worker h (v :: vs)) with (tool.worker (tool.forward h v) vs).
    destruct (WriteMessage_takes conn (record_message v) (length vs) Htakes)
      as (Hnil & Hw & Hleft & Htakes').
    assert (tool.connections (tool.forward h v) !! c
            = Some (tool.WriteMessage conn (record_message v)).1) as Hc'.
    { unfold tool.forward. simpl. rewrite lookup_omap, Hc. simpl.
      fold (record_message v).
      by destruct (tool.WriteMessage conn (record_message v)) as [conn1 [e|]]. }
    destruct (IH _ c _ Hc' Htakes') as (conn' & Hlook & Hwritten & Hbudget).
    exists conn'. split; [done|]. split.
    + rewrite Hwritten, Hw, <- app_assoc. done.
    + rewrite Hbudget, Hleft. destruct (tool.writes_left conn); simpl; [f_equal; lia|done].
Qed.

(** X22.  A viewer that connects when the state can be computed, and whose
    peer keeps taking writes, is registered after one [init] message with
    that state, and then receives one [record] message for every value
    sent on the channel, in the order sent, after what had been written to
    it before. *)
Theorem viewer_receives_init_then_records (h : tool.Handler) (fs : FS)
    (c : positive) (conn : tool.Conn) (records vs : list RequestInfo) :
  tool._getAllRequestInfo (tool.recorder h) fs = Ok records →
  takes conn (S (length vs)) →
  let h1 := (tool.websocketHandler h fs (Ok (c, conn))).1 in
  ∃ conn',
    tool.connections (tool.worker h1 vs) !! c = Some conn' ∧
    tool.written conn' =
      tool.written conn ++ init_message records :: (record_message <$> vs).
Proof.
  intros Hinit Htakes h1.
  destruct (WriteMessage_takes conn (init_message records) (length vs) Htakes)
    as (Hnil & Hw & _ & Htakes').
  assert (tool.connections h1 !! c
          = Some (tool.WriteMessage conn (init_message records)).1) as Hc.
  { subst h1. unfold tool.websocketHandler. rewrite Hinit.
    fold (init_message records).
    destruct (tool.WriteMessage conn (init_message records)) as [conn1 [e|]];
      [discriminate|]. simpl. by rewrite lookup_insert_eq. }
  destruct (worker_delivers vs h1 c _ Hc Htakes') as (conn' & Hlook & Hwritten & _).
  exists conn'. split; [done|]. rewrite Hwritten, Hw, <- app_assoc. done.
Qed.

(** X23.  A registered connection whose write fails is deleted in that
    turn of the worker, and the turn treats every other connection as if
    the failing one had not been registered; a turn never registers a
    connection. *)
Theorem broken_connection_is_dropped (h : tool.Handler) (c : positive)
    (conn : tool.Conn) (v : RequestInfo) :
  tool.connections h !! c = Some conn →
  tool.writes_left conn = Some 0%nat →
  tool.connections (tool.forward h v) !! c = None ∧
  (∀ c', c' ≠ c →
     tool.connections (tool.forward h v) !! c'
     = tool.connections
         (tool.forward (tool.websocketHandler_closed h c) v) !! c') ∧
  (∀ c', is_Some (tool.connections (tool.forward h v) !! c') →
         is_Some (tool.connections h !! c')).
Proof.
  intros Hc Hbroken. unfold tool.forward, tool.websocketHandler_closed. simpl.
  split; [|split].
  - rewrite lookup_omap, Hc. simpl. unfold tool.WriteMessage. by rewrite Hbroken.
  - intros c' Hne. rewrite !lookup_omap. by rewrite lookup_delete_ne.
  - intros c' [conn' Hc']. rewrite lookup_omap in Hc'.
    destruct (tool.connections h !! c'); [eauto|discriminate].
Qed.

(** X24.  When a listed record has no readable request, a viewer that
    connects is not registered and nothing is written to its connection:
    the handler and the connection are left as they were. *)
Theorem viewer_gets_nothing_when_a_request_is_missing (h : tool.Handler) (fs : FS)
    (c : positive) (conn : tool.Conn) (ids : list Z) (id : Z) (e : error) :
  GetAllRequestIDs (tool.recorder h) fs = Ok ids →
  id ∈ ids →
  GetRequest (tool.recorder h) fs id = Err e →
  tool.websocketHandler h fs (Ok (c, conn)) = (h, Some conn).
Proof.
  intros Hids Hin Hreq. unfold tool.websocketHandler.
  destruct (tool._getAllRequestInfo (tool.recorder h) fs) as [records|] eqn:Hrun; [|done].
  exfalso.
  destruct (proj1 (_getAllRequestInfo_Ok (tool.recorder h) fs) (ex_intro _ _ Hrun))
    as (ids' & Hids' & Hall).
  rewrite Hids in Hids'. injection Hids' as <-.
  rewrite Forall_forall in Hall. destruct (Hall id Hin) as (c0 & q & Hok & _).
  rewrite Hreq in Hok. discriminate.
Qed.

End ToolProperties.

(** ** The kind of an operation *)

Section ParseProperties.

Context `{Lib GraphQLRequest}.

Lemma HasPrefix_spec (s prefix : string) :
  HasPrefix s prefix = true ↔ ∃ t, s = prefix +:+ t.
Proof.
  revert s. induction prefix as [|p prefix IH]; intros s.
  - split; [intros _; exists s; reflexivity|intros _; by destruct s].
  - destruct s as [|c s]; simpl.
    + split; [done|]. intros (t & Ht). discriminate.
    + destruct (Ascii.eqb_spec c p) as [->|Hne].
      * rewrite IH. split; intros (t & Ht); exists t.
        -- by rewrite Ht.
        -- change (String p prefix +:+ t) with (String p (prefix +:+ t)) in Ht.
           by injection Ht.
      * split; [done|]. intros (t & Ht).
        change (String p prefix +:+ t) with (String p (prefix +:+ t)) in Ht.
        injection Ht as Hc _. done.
Qed.

(** X25.  A request body that decodes is parsed to the decoded name,
    variables and query, and its kind is read off the first characters of
    the query text alone: [query] gives a query, [mutation] a mutation,
    anything else is unknown.  Under the policy of [main.go] a snapshot is
    therefore taken exactly for the query texts that begin with
    [mutation]. *)
Theorem kind_follows_query_text (content : string) (d : GraphQLRequest) :
  json_Unmarshal content = Ok d →
  ∃ q, ParseRequest content = Ok q ∧
       OperationName q = OperationName d ∧
       Variables q = Variables d ∧
       Query q = Query d ∧
       (OperationType_ q = OperationTypeQuery ↔ ∃ t, Query d = "query" +:+ t) ∧
       (OperationType_ q = OperationTypeMutation ↔ ∃ t, Query d = "mutation" +:+ t) ∧
       (OperationType_ q = OperationTypeUnknown ↔
          ¬ (∃ t, Query d = "query" +:+ t) ∧ ¬ (∃ t, Query d = "mutation" +:+ t)) ∧
       (ShouldSnapshotRequest mainRequestSelector q = true
          ↔ ∃ t, Query d = "mutation" +:+ t).
Proof.
  intros Hd. unfold ParseRequest. rewrite Hd. eexists. split; [done|]. simpl.
  do 3 (split; [done|]).
  assert (¬ ((∃ t, Query d = "query" +:+ t) ∧ (∃ t, Query d = "mutation" +:+ t)))
    as Hexcl.
  { intros [(t & Ht) (t' & Ht')]. rewrite Ht in Ht'. discriminate. }
  rewrite <- !HasPrefix_spec in *.
  destruct (HasPrefix (Query d) "query"), (HasPrefix (Query d) "mutation");
    simpl; try (exfalso; by apply Hexcl); repeat split; try done; intros []; done.
Qed.

End ParseProperties.

(** ** The list of requests in the page *)

Section PageProperties.

Import index_js.

Lemma latest_cons (v : RequestInfo) (vs : list RequestInfo) (d : RequestInfo) (j : Z) :
  latest (v :: vs) d j = latest vs (if decide (RequestID v = j) then v else d) j.
Proof.
  unfold latest. rewrite filter_cons.
  destruct (decide (RequestID v = j)) as [Hj|Hj]; [|done].
  destruct (filter (λ v0, RequestID v0 = j) vs) as [|w ws] eqn:Hf; [done|].
  rewrite last_cons. by destruct (last (w :: ws)) eqn:Hl.
Qed.

Lemma updateInfo_updateInfo (item : Item) (a b : RequestInfo) :
  updateInfo (updateInfo item a) b = updateInfo item b.
Proof. done. Qed.

Lemma updateInfo_own (item : Item) : updateInfo item (_recordInfo item) = item.
Proof. by destruct item. Qed.

Lemma existsb_ids (items : list Item) (j : Z) :
  existsb (λ item, (id item =? j)%Z) items = true ↔ j ∈ id <$> items.
Proof.
  rewrite existsb_exists, list_elem_of_fmap. split.
  - intros (item & Hin & Heq). apply Z.eqb_eq in Heq.
    exists item. split; [done|]. by apply list_elem_of_In.
  - intros (item & -> & Hin). exists item. split; [by apply list_elem_of_In|].
    by apply Z.eqb_eq.
Qed.

(** One record: every item of the identifier takes the new information,
    and an item is added when the identifier is new. *)
Lemma handleRecord_elem (items : list Item) (v : RequestInfo) (item : Item) :
  item ∈ handleRecord items v ↔
  (∃ item0, item0 ∈ items ∧
     item = if decide (id item0 = RequestID v) then updateInfo item0 v else item0) ∨
  ((RequestID v ∉ id <$> items) ∧ item = Item_new v).
Proof.
  unfold handleRecord, addItem.
  assert (∀ l : list Item,
            item ∈ map (λ item1, if (id item1 =? RequestID v)%Z
                                 then updateInfo item1 v else item1) l ↔
            ∃ item0, item0 ∈ l ∧
              item = if decide (id item0 = RequestID v)
                     then updateInfo item0 v else item0) as Hmap.
  { intros l. change (map ?f l) with (f <$> l). rewrite list_elem_of_fmap.
    split; intros (item0 & H1 & H2).
    - exists item0. split; [done|]. subst item.
      destruct (Z.eqb_spec (id item0) (RequestID v)), decide; done.
    - exists item0. split; [|done]. subst item.
      destruct (Z.eqb_spec (id item0) (RequestID v)), decide; done. }
  destruct (existsb _ items) eqn:Hfound.
  - apply existsb_ids in Hfound. rewrite Hmap. split; [by left|].
    intros [?|[? _]]; done.
  - assert (RequestID v ∉ id <$> items) as Hnew.
    { intros Hin. apply existsb_ids in Hin. congruence. }
    rewrite elem_of_app, Hmap, list_elem_of_singleton. split.
    + intros [?|?]; [by left|by right].
    + intros [?|[_ ?]]; [by left|by right].
Qed.

Lemma handleRecord_ids (items : list Item) (v : RequestInfo) :
  id <$> handleRecord items v
  = (id <$> items) ++ (if decide (RequestID v ∈ id <$> items) then [] else [RequestID v]).
Proof.
  unfold handleRecord, addItem.
  assert (id <$> map (λ item1, if (id item1 =? RequestID v)%Z
                               then updateInfo item1 v else item1) items
          = id <$> items) as Hmap.
  { change (map ?f items) with (f <$> items). rewrite <- list_fmap_compose.
    apply list_fmap_ext. intros i item _. simpl.
    destruct (Z.eqb_spec (id item) (RequestID v)); [|done]. done. }
  destruct (existsb _ items) eqn:Hfound.
  - apply existsb_ids in Hfound. rewrite Hmap.
    destruct decide; [|done]. by rewrite app_nil_r.
  - assert (RequestID v ∉ id <$> items) as Hnew.
    { intros Hin. apply existsb_ids in Hin. congruence. }
    rewrite fmap_app, Hmap. destruct decide; done.
Qed.

Lemma handleRecord_NoDup (items : list Item) (v : RequestInfo) :
  NoDup (id <$> items) → NoDup (id <$> handleRecord items v).
Proof.
  intros Hnd. rewrite handleRecord_ids. destruct decide as [Hin|Hnew].
  - by rewrite app_nil_r.
  - apply NoDup_app. split; [done|]. split; [|apply NoDup_singleton].
    intros j Hj Hj'. apply list_elem_of_singleton in Hj'. by subst j.
Qed.

Lemma records_elem (vs : list RequestInfo) (items : list Item) (item : Item) :
  item ∈ foldl handleRecord items vs ↔
  (∃ item0, item0 ∈ items ∧
     item = updateInfo item0 (latest vs (_recordInfo item0) (id item0))) ∨
  (∃ v, v ∈ vs ∧ (RequestID v ∉ id <$> items) ∧
     item = Item_new (latest vs v (RequestID v))).
Proof.
  revert items. induction vs as [|v vs IH]; intros items.
  - simpl. split.
    + intros Hin. left. exists item. split; [done|].
      unfold latest. simpl. by rewrite updateInfo_own.
    + intros [(item0 & Hin & ->)|(v & Hin & _)]; [|by apply elem_of_nil in Hin].
      unfold latest. simpl. by rewrite updateInfo_own.
  - simpl. rewrite IH. clear IH.
    assert (∀ j, j ∈ id <$> handleRecord items v ↔
                 j ∈ id <$> items ∨ j = RequestID v) as Hids.
    { intros j. rewrite handleRecord_ids, elem_of_app. destruct decide as [Hin|Hnew].
      - split; [intros [?|Hn]; [by left|by apply elem_of_nil in Hn]|].
        intros [?| ->]; by left.
      - by rewrite list_elem_of_singleton. }
    split.
    + intros [(item1 & Hin1 & ->)|(v' & Hin' & Hnew' & ->)].
      * apply handleRecord_elem in Hin1 as [(item0 & Hin0 & ->)|(Hnew & ->)].
        -- left. exists item0. split; [done|]. rewrite latest_cons.
           destruct (decide (id item0 = RequestID v)) as [Heq|Hne].
           ++ rewrite decide_True by done. unfold id at 1. simpl. by rewrite <- Heq.
           ++ by rewrite decide_False by done.
        -- right. exists v. split; [by left|]. split; [done|].
           rewrite latest_cons, decide_True by done. done.
      * right. exists v'. rewrite Hids in Hnew'.
        split; [by right|]. split; [tauto|].
        rewrite latest_cons, decide_False; [done|]. intros Heq. apply Hnew'. by right.
    + intros [(item0 & Hin0 & ->)|(v0 & Hin0 & Hnew0 & ->)].
      * left.
        exists (if decide (id item0 = RequestID v) then updateInfo item0 v else item0).
        split; [apply handleRecord_elem; left; by exists item0|].
        rewrite latest_cons.
        destruct (decide (id item0 = RequestID v)) as [Heq|Hne].
        -- rewrite decide_True by done. unfold id at 2. simpl. by rewrite <- Heq.
        -- by rewrite decide_False by done.
      * rewrite latest_cons.
        destruct (decide (RequestID v = RequestID v0)) as [Heq|Hne].
        -- left. exists (Item_new v). split.
           ++ apply handleRecord_elem. right. split; [by rewrite Heq|done].
           ++ unfold id. simpl. by rewrite Heq.
        -- right. exists v0. apply elem_of_cons in Hin0 as [->|Hin0]; [done|].
           split; [done|]. split; [|done]. rewrite Hids. intros [?|?]; [done|].
           by apply Hne.
Qed.

Lemma records_NoDup (vs : list RequestInfo) (items : list Item) :
  NoDup (id <$> items) → NoDup (id <$> foldl handleRecord items vs).
Proof.
  revert items. induction vs as [|v vs IH]; intros items Hnd; [done|].
  simpl. apply IH. by apply handleRecord_NoDup.
Qed.

Lemma foldl_addItem (records : list RequestInfo) (items : list Item) :
  foldl addItem items records = items ++ (Item_new <$> records).
Proof.
  revert items. induction records as [|r records IH]; intros items; simpl.
  - by rewrite app_nil_r.
  - rewrite IH. unfold addItem. by rewrite <- app_assoc.
Qed.

Lemma foldl_onMessage_records (vs : list RequestInfo) (items : list Item) :
  foldl onMessage items (record_message <$> vs) = foldl handleRecord items vs.
Proof.
  revert items. induction vs as [|v vs IH]; intros items; [done|]. simpl. by rewrite IH.
Qed.

(** X26.  A page that receives the initial list and then any sequence of
    record messages holds exactly: for each entry of the initial list, an
    item with the latest information received for its identifier (the
    entry itself when none was received), and for each identifier that
    only the record messages brought, an item with the latest information
    received for it.  When no two entries of the initial list share an
    identifier, no two items do. *)
Theorem page_shows_latest_information (records vs : list RequestInfo) :
  let items :=
    foldl onMessage [] (init_message records :: (record_message <$> vs)) in
  (∀ item, item ∈ items ↔
     (∃ r, r ∈ records ∧ item = Item_new (latest vs r (RequestID r))) ∨
     (∃ v, v ∈ vs ∧ (RequestID v ∉ RequestID <$> records) ∧
        item = Item_new (latest vs v (RequestID v)))) ∧
  (NoDup (RequestID <$> records) → NoDup (id <$> items)).
Proof.
  intros items.
  assert (items = foldl handleRecord (Item_new <$> records) vs) as ->.
  { subst items. simpl. change (onMessage [] (init_message records))
      with (foldl addItem [] records).
    by rewrite foldl_onMessage_records, foldl_addItem. }
  assert (id <$> (Item_new <$> records) = RequestID <$> records) as Hids.
  { rewrite <- list_fmap_compose. done. }
  split.
  - intros item. rewrite records_elem, Hids. split.
    + intros [(item0 & Hin & ->)|?]; [left|by right].
      apply list_elem_of_fmap in Hin as (r & -> & Hr). by exists r.
    + intros [(r & Hr & ->)|?]; [left|by right].
      exists (Item_new r). split; [|done]. apply list_elem_of_fmap. by exists r.
  - intros Hnd. apply records_NoDup. by rewrite Hids.
Qed.

Lemma filter_selected_app (l1 l2 : list Item) :
  List.filter _selected (l1 ++ l2) = List.filter _selected l1 ++ List.filter _selected l2.
Proof. apply List.filter_app. Qed.

Lemma filter_selected_map (f : Item → Item) (l : list Item) :
  (∀ item, _selected (f item) = _selected item) →
  length (List.filter _selected (map f l)) = length (List.filter _selected l).
Proof.
  intros Hf. induction l as [|item l IH]; [done|]. simpl. rewrite Hf.
  destruct (_selected item); simpl; by rewrite IH.
Qed.

Lemma onMessage_selected (items : list Item) (message : tool.WebsocketMessage) :
  length (List.filter _selected (onMessage items message))
  = length (List.filter _selected items).
Proof.
  unfold onMessage.
  destruct (String.eqb (tool.Type_ message) "init").
  - destruct (tool.Data message) as [records|]; [|done].
    revert items. induction records as [|v records IH]; intros items; [done|].
    simpl. rewrite IH. unfold addItem. rewrite filter_selected_app. simpl.
    by rewrite app_nil_r.
  - destruct (String.eqb (tool.Type_ message) "record"); [|done].
    destruct (tool.Data message) as [|info]; [done|].
    unfold handleRecord, addItem.
    assert (length (List.filter _selected
                      (map (λ item, if (id item =? RequestID info)%Z
                                    then updateInfo item info else item) items))
            = length (List.filter _selected items)) as Hmap.
    { apply filter_selected_map. intros item. by destruct (_ =? _)%Z. }
    destruct (existsb _ items); [done|].
    rewrite filter_selected_app. simpl. rewrite app_nil_r. done.
Qed.

Lemma clearAllSelections_selected (items : list Item) :
  List.filter _selected (clearAllSelections items) = [].
Proof. induction items as [|item items IH]; [done|]. simpl. done. Qed.

Lemma filter_selected_insert (l : list Item) (k : nat) (item : Item) :
  List.filter _selected l = [] → (k < length l)%nat → _selected item = true →
  List.filter _selected (<[k := item]> l) = [item].
Proof.
  revert k. induction l as [|x l IH]; intros k Hnone Hk Hsel; simpl in *; [lia|].
  destruct (_selected x) eqn:Hx; [discriminate|].
  destruct k as [|k]; simpl.
  - by rewrite Hsel, Hnone.
  - rewrite Hx. apply IH; [done|lia|done].
Qed.

Lemma click_selected (items : list Item) (k : nat) :
  List.filter _selected (click items k)
  = match items !! k with
    | Some item => [setSelected item true]
    | None => []
    end.
Proof.
  unfold click.
  assert (clearAllSelections items !! k = (λ item, setSelected item false) <$> items !! k)
    as Hk by apply list_lookup_fmap.
  rewrite Hk. destruct (items !! k) as [item|] eqn:Hitem; simpl.
  - apply filter_selected_insert; [apply clearAllSelections_selected| |done].
    unfold clearAllSelections. rewrite length_map. by eapply lookup_lt_Some.
  - apply clearAllSelections_selected.
Qed.

(** X27.  Messages never change which items are selected, and a click
    leaves exactly the clicked item selected: a page with at most one
    selected item has at most one after anything that happens to it, and
    right after a click on an item the selection is that item. *)
Theorem at_most_one_item_selected (items : list Item) (evs : list UIEvent) :
  (length (List.filter _selected items) ≤ 1)%nat →
  (length (List.filter _selected (foldl ui_step items evs)) ≤ 1)%nat ∧
  (∀ k item, foldl ui_step items evs !! k = Some item →
     List.filter _selected (ui_step (foldl ui_step items evs) (Click k))
     = [setSelected item true]).
Proof.
  intros Hone. split.
  - revert items Hone. induction evs as [|ev evs IH]; intros items Hone; [done|].
    simpl. apply IH. destruct ev as [message|k]; simpl.
    + by rewrite onMessage_selected.
    + rewrite click_selected. destruct (items !! k); simpl; lia.
  - intros k item Hk. simpl. by rewrite click_selected, Hk.
Qed.

End PageProperties.

(** ** The properties at concrete stores and exchanges *)

Section FurtherWitnesses.

Local Open Scope Z_scope.

Lemma FormatRequestID_Atoi_witness :
  minInt ≤ 1234567 ≤ maxInt ∧
  FormatRequestID_ out 1234567 = "1234567" ∧
  Atoi (FormatRequestID_ out 1234567) = Ok 1234567 ∧
  FormatRequestID_ out (-5) = "-00005" ∧
  Atoi (FormatRequestID_ out (-5)) = Ok (-5).
Proof.
  assert (minInt ≤ 1234567 ≤ maxInt) as Hbig by (unfold minInt, maxInt; lia).
  assert (minInt ≤ -5 ≤ maxInt) as Hneg by (unfold minInt, maxInt; lia).
  split; [exact Hbig|]. split; [reflexivity|].
  split; [exact (FormatRequestID_Atoi out 1234567 Hbig)|].
  split; [reflexivity|]. exact (FormatRequestID_Atoi out (-5) Hneg).
Defined.

Lemma saveFile_loadFile_witness :
  minInt ≤ 2 ≤ maxInt ∧ minInt ≤ 3 ≤ maxInt ∧
  loadFile out (saveFile out snapshotStore 2 "response.txt" "again").1 2 "response.txt"
  = Ok "again" ∧
  loadFile out (saveFile out snapshotStore 2 "response.txt" "again").1 3 "response.txt"
  = Ok "three" ∧
  loadFile out (saveFile out snapshotStore 2 "response.txt" "again").1 2 "snapshot.txt"
  = Ok "after two".
Proof.
  assert (minInt ≤ 2 ≤ maxInt) as H2 by (unfold minInt, maxInt; lia).
  assert (minInt ≤ 3 ≤ maxInt) as H3 by (unfold minInt, maxInt; lia).
  destruct (saveFile_loadFile out snapshotStore 2 "response.txt" "again")
    as (_ & Hsame & Hother).
  split; [exact H2|]. split; [exact H3|]. split; [exact Hsame|]. split.
  - rewrite (Hother 3 "response.txt" H2 H3); [reflexivity|left; lia].
  - rewrite (Hother 2 "snapshot.txt" H2 H2); [reflexivity|right; discriminate].
Defined.

Lemma saved_identifier_is_listed_witness :
  1 ≤ 7 ≤ 999999 ∧
  GetAllRequestIDs out snapshotStore = Ok [1; 2; 3] ∧
  (∃ ids', GetAllRequestIDs out (saveFile out snapshotStore 7 "request.txt" "{}").1
           = Ok ids' ∧
           ∀ j, j ∈ ids' ↔ j = 7 ∨ j ∈ [1; 2; 3]) ∧
  GetAllRequestIDs out (saveFile out ∅ 7 "request.txt" "{}").1 = Ok [7].
Proof.
  assert (1 ≤ 7 ≤ 999999) as H7 by lia.
  split; [exact H7|]. split; [reflexivity|]. split.
  - apply (proj1 (saved_identifier_is_listed out snapshotStore 7 "request.txt" "{}" H7)).
    reflexivity.
  - apply (proj2 (saved_identifier_is_listed out ∅ 7 "request.txt" "{}" H7)).
    reflexivity.
Defined.

Lemma identifier_zero_is_not_listed_witness :
  GetAllRequestIDs out snapshotStore = Ok [1; 2; 3] ∧
  GetAllRequestIDs out (saveFile out snapshotStore 0 "request.txt" "{}").1
  = Ok [1; 2; 3] ∧
  NextRequestID_ out (saveFile out snapshotStore 0 "request.txt" "{}").1
  = NextRequestID_ out snapshotStore.
Proof.
  split; [reflexivity|].
  apply (identifier_zero_is_not_listed out snapshotStore [1; 2; 3]). reflexivity.
Defined.

Lemma saving_next_identifier_advances_witness :
  canonical_store out snapshotStore ∧
  NextRequestID_ out snapshotStore = Ok 4 ∧
  1 ≤ 4 ≤ 999999 ∧
  NextRequestID_ out (saveFile out snapshotStore 4 "request.txt" "{}").1 = Ok (4 + 1) ∧
  canonical_store out (saveFile out snapshotStore 4 "request.txt" "{}").1.
Proof.
  split; [exact snapshotStore_canonical|]. split; [reflexivity|]. split; [lia|].
  apply (saving_next_identifier_advances out snapshotStore 4 "request.txt" "{}").
  - exact snapshotStore_canonical.
  - reflexivity.
  - lia.
Defined.

Lemma NewHandler_always_warns_witness :
  let snapshotter := testSnapshotter "snapshot" None "(snapshot description)" in
  let h : Handler (Recorder * FS) :=
    {| proxy.snapshotter := snapshotter;
       proxy.recorder := (out, snapshotStore);
       proxy.selector := mainRequestSelector;
       proxy.reporter :=
         [("warning", "existing requests in output dir, next request id: 4")];
       requestInfoChan := [];
       host := "127.0.0.1:7081";
       proxyOrigin := {| Scheme := "http"; URLHost := "127.0.0.1:8081" |};
       nextRequestID := 4;
       requestContent := ∅ |} in
  NewHandler "127.0.0.1:7081" "http://127.0.0.1:8081" snapshotter (out, snapshotStore)
    mainRequestSelector [] [] = Ok h ∧
  NextRequestID_ out snapshotStore = Ok (nextRequestID h) ∧
  (nextRequestID h = 0 ∨ 2 ≤ nextRequestID h ≤ 1000000) ∧
  reporter h =
    [] ++ [("warning", "existing requests in output dir, next request id: "
                       +:+ Sprintf_d (nextRequestID h))] ∧
  recorder h = (out, snapshotStore) ∧
  requestInfoChan h = [] ∧
  requestContent h = ∅.
Proof.
  intros snapshotter h.
  assert (NewHandler "127.0.0.1:7081" "http://127.0.0.1:8081" snapshotter
            (out, snapshotStore) mainRequestSelector [] [] = Ok h) as Hnew
    by reflexivity.
  split; [exact Hnew|].
  exact (NewHandler_always_warns _ _ _ _ _ _ _ _ h Hnew).
Defined.

Lemma GetPriorSnapshot_successor_witness :
  0 ≤ 2 ∧ 0 ≤ 0 ∧
  snapshot_file out snapshotStore 2 = Some "after two" ∧
  GetPriorSnapshot out snapshotStore (2 + 1) = Ok "after two" ∧
  snapshot_file out emptyStore 0 = None ∧
  (∀ s, GetPriorSnapshot out emptyStore (0 + 1) = Ok s
        ↔ GetPriorSnapshot out emptyStore 0 = Ok s).
Proof.
  assert (0 ≤ 2) as H2 by lia. assert (0 ≤ 0) as H0 by lia.
  split; [exact H2|]. split; [exact H0|]. split; [reflexivity|].
  split; [exact (GetPriorSnapshot_successor out snapshotStore 2 H2)|].
  split; [reflexivity|].
  exact (GetPriorSnapshot_successor out emptyStore 0 H0).
Defined.


Lemma matched_exchange_reclaims_entry_witness :
  let r := request 1%positive graphqlPath (Some queryToRecord) in
  let RoundTrip := origin "some content from the origin" in
  Contains (URL_Path r) "/backend-graphql/" = true ∧
  RoundTrip (ProxyDirector testHandler r).2
  = Ok (response (ProxyDirector testHandler r).2 "some content from the origin") ∧
  requestContent (ProxyDirector testHandler r).1 !! addr r = Some queryToRecord ∧
  requestContent (ServeHTTP testHandler RoundTrip r).1
  = delete (addr r) (requestContent testHandler) ∧
  requestContent (ServeHTTP testHandler RoundTrip r).1 = requestContent testHandler.
Proof.
  intros r RoundTrip.
  destruct (matched_exchange_reclaims_entry testHandler RoundTrip r
              (response (ProxyDirector testHandler r).2 "some content from the origin")
              eq_refl eq_refl eq_refl) as (Hdel & Hsame).
  split; [reflexivity|]. split; [reflexivity|]. split; [reflexivity|].
  split; [exact Hdel|]. apply Hsame. reflexivity.
Defined.

Lemma unrecordable_response_only_reports_witness :
  let resp := response (request 1%positive graphqlPath None) "some content" in
  let h' := (ProxyResponseHandler testHandler resp).1.1 in
  Contains (URL_Path (Request_ resp)) "/backend-graphql/" = true ∧
  default "" (requestContent testHandler !! addr (Request_ resp)) = "" ∧
  nextRequestID h' = nextRequestID testHandler ∧
  requestInfoChan h' = requestInfoChan testHandler ∧
  recorder h' = recorder testHandler ∧
  reporter h' = reporter testHandler ++ [("warning", "no request content, " +:+ graphqlPath)].
Proof.
  intros resp h'.
  destruct (unrecordable_response_only_reports testHandler resp eq_refl
              (or_introl eq_refl)) as (Hid & Hchan & Hrec & _ & _ & Hwarn & _).
  split; [reflexivity|]. split; [reflexivity|].
  split; [exact Hid|]. split; [exact Hchan|]. split; [exact Hrec|].
  exact (Hwarn eq_refl).
Defined.


Lemma snapshotted_operation_is_stored_witness :
  let h := snapshotExchange.1 in
  let resp := snapshotExchange.2 in
  let h' := (ProxyResponseHandler h resp).1.1 in
  let fs' := (recorder h').2 in
  accepted h resp mutationToRecord mutationDecoded "some content from the origin" ∧
  ShouldSnapshotRequest (selector h) mutationDecoded = true ∧
  Snapshotter_TakeSnapshot (snapshotter h) mutationDecoded = Ok "snapshot" ∧
  nextRequestID h' = 2 ∧
  GetRequest out fs' 1 = Ok mutationToRecord ∧
  GetResponse out fs' 1 = Ok "some content from the origin" ∧
  snapshot_file out fs' 1 = Some "snapshot" ∧
  requestInfoChan h'
  = [event 1 mutationDecoded true false; event 1 mutationDecoded true true] ∧
  GetPriorSnapshot out fs' 2 = Ok "snapshot".
Proof.
  intros h resp h' fs'.
  assert (accepted h resp mutationToRecord mutationDecoded
            "some content from the origin") as Hacc.
  { repeat split; try reflexivity. discriminate. }
  destruct (snapshotted_operation_is_stored h resp mutationToRecord mutationDecoded
              "some content from the origin" "snapshot" Hacc eq_refl eq_refl)
    as (_ & Hnext & Hreq & Hresp & Hsnap & Hchan & _ & Hprior).
  split; [exact Hacc|]. split; [reflexivity|]. split; [reflexivity|].
  split; [exact Hnext|]. split; [exact Hreq|]. split; [exact Hresp|].
  split; [exact Hsnap|]. split; [exact Hchan|]. apply Hprior. vm_compute. discriminate.
Defined.

Lemma recorded_operation_without_snapshot_witness :
  let h := queryExchange.1 in
  let resp := queryExchange.2 in
  let h' := (ProxyResponseHandler h resp).1.1 in
  let fs' := (recorder h').2 in
  accepted h resp queryToRecord queryDecoded "some content from the origin" ∧
  ShouldSnapshotRequest (selector h) queryDecoded = false ∧
  nextRequestID h' = 2 ∧
  GetRequest out fs' 1 = Ok queryToRecord ∧
  GetResponse out fs' 1 = Ok "some content from the origin" ∧
  (∀ j, snapshot_file out fs' j = snapshot_file out bootstrapStore j) ∧
  requestInfoChan h' = [event 1 queryDecoded false false].
Proof.
  intros h resp h' fs'.
  assert (accepted h resp queryToRecord queryDecoded
            "some content from the origin") as Hacc.
  { repeat split; try reflexivity. discriminate. }
  destruct (recorded_operation_without_snapshot h resp queryToRecord queryDecoded
              "some content from the origin" Hacc eq_refl)
    as (_ & Hnext & Hreq & Hresp & Hsnap & Hchan & _).
  split; [exact Hacc|]. split; [reflexivity|].
  split; [exact Hnext|]. split; [exact Hreq|]. split; [exact Hresp|].
  split; [exact Hsnap|]. exact Hchan.
Defined.

Lemma restart_resumes_numbering_witness :
  let s := mainServer (testSnapshotter "snapshot" None "(snapshot description)") in
  url_Parse "http://127.0.0.1:8081" = Ok {| Scheme := "http"; URLHost := "127.0.0.1:8081" |} ∧
  GetAllRequestIDs (server.recorder s) snapshotStore = Ok [1; 2; 3] ∧
  [1; 2; 3] ≠ [] ∧
  ∃ h, server.ListenAndServe s snapshotStore = Ok h ∧
       nextRequestID h = List.last [1; 2; 3] 0 + 1 ∧
       recorder h = (server.recorder s, snapshotStore) ∧
       reporter h =
         server.reporter s ++
           [("warning", "existing requests in output dir, next request id: "
                        +:+ Sprintf_d (List.last [1; 2; 3] 0 + 1))] ∧
       requestInfoChan h = [] ∧
       requestContent h = ∅.
Proof.
  intros s.
  assert ([1; 2; 3] ≠ ([] : list Z)) as Hne by discriminate.
  split; [reflexivity|]. split; [reflexivity|]. split; [exact Hne|].
  exact (restart_resumes_numbering s snapshotStore [1; 2; 3]
           {| Scheme := "http"; URLHost := "127.0.0.1:8081" |} eq_refl eq_refl Hne).
Defined.

Lemma first_start_takes_bootstrap_witness :
  let s := mainServer (testSnapshotter "bootstrap" None "(snapshot description)") in
  GetAllRequestIDs (server.recorder s) emptyStore = Ok [] ∧
  Snapshotter_TakeSnapshot (server.snapshotter s) GraphQLRequest_zero = Ok "bootstrap" ∧
  ∃ h, server.ListenAndServe s emptyStore = Ok h ∧
       nextRequestID h = 0 ∧
       (recorder h).1 = server.recorder s ∧
       snapshot_file (server.recorder s) (recorder h).2 0 = Some "bootstrap" ∧
       GetAllRequestIDs (server.recorder s) (recorder h).2 = Ok [] ∧
       reporter h =
         server.reporter s ++
           [("warning", "existing requests in output dir, next request id: 0");
            ("", "taking a snapshot, " +:+ SnapshotInfo (server.snapshotter s) +:+ "...");
            ("", "...done")].
Proof.
  intros s. split; [reflexivity|]. split; [reflexivity|].
  exact (first_start_takes_bootstrap s emptyStore
           {| Scheme := "http"; URLHost := "127.0.0.1:8081" |} "bootstrap"
           eq_refl eq_refl eq_refl).
Defined.

Lemma failed_bootstrap_aborts_startup_witness :
  let s :=
    mainServer (testSnapshotter "" (Some (ErrorString "exit status 1"))
                  "(snapshot description)") in
  GetAllRequestIDs (server.recorder s) emptyStore = Ok [] ∧
  Snapshotter_TakeSnapshot (server.snapshotter s) GraphQLRequest_zero
  = Err (ErrorString "exit status 1") ∧
  server.ListenAndServe s emptyStore = Err (ErrorString "exit status 1") ∧
  (server.takeInitialSnapshotIfNeeded s emptyStore).1.2 = emptyStore.
Proof.
  intros s.
  assert (url_Parse "http://127.0.0.1:8081"
          = Ok {| Scheme := "http"; URLHost := "127.0.0.1:8081" |}) as Hurl
    by reflexivity.
  destruct (failed_bootstrap_aborts_startup s emptyStore
              {| Scheme := "http"; URLHost := "127.0.0.1:8081" |}
              (ErrorString "exit status 1") Hurl eq_refl eq_refl)
    as (Hserve & _ & Hfs & _).
  split; [reflexivity|]. split; [reflexivity|]. split; [exact Hserve|]. exact Hfs.
Defined.

Lemma served_record_snapshots_witness :
  let record :=
    {| tool.Record_RequestID := 3;
       tool.Record_OperationType := "query";
       tool.Record_OperationName := "operationToRecord";
       tool.Record_Request := queryToRecord;
       tool.Record_Response := "three";
       tool.CurrentSnapshot := "after two";
       tool.PriorSnapshot := "" |} in
  tool._getRequestRecord out snapshotStore "3" = inl record ∧
  ∃ id,
    Atoi "3" = Ok id ∧ 1 ≤ id ∧ tool.Record_RequestID record = id ∧
    GetRequest out snapshotStore id = Ok (tool.Record_Request record) ∧
    GetResponse out snapshotStore id = Ok (tool.Record_Response record) ∧
    match snapshot_file out snapshotStore id with
    | Some own =>
        tool.CurrentSnapshot record = own ∧
        GetPriorSnapshot out snapshotStore id = Ok (tool.PriorSnapshot record)
    | None =>
        GetPriorSnapshot out snapshotStore id = Ok (tool.CurrentSnapshot record) ∧
        tool.PriorSnapshot record = ""
    end ∧
    ∃ j, 0 ≤ j ≤ id ∧
         snapshot_file out snapshotStore j = Some (tool.CurrentSnapshot record) ∧
         ∀ k, j < k ≤ id → snapshot_file out snapshotStore k = None.
Proof.
  intros record.
  assert (tool._getRequestRecord out snapshotStore "3" = inl record) as Hrun
    by reflexivity.
  split; [exact Hrun|].
  exact (served_record_snapshots out snapshotStore "3" record Hrun).
Defined.

Lemma request_status_witness :
  Atoi "-1" = Ok (-1) ∧
  tool.getRequestRecord out snapshotStore "-1" = (500%nat, None) ∧
  Atoi "1" = Ok 1 ∧
  (∀ j, 0 ≤ j < 1 → snapshot_file out emptyStore j = None) ∧
  tool.getRequestRecord out emptyStore "1" = (500%nat, None) ∧
  (tool.getRequestRecord out snapshotStore "0").1 = 400%nat.
Proof.
  assert (∀ j, 0 ≤ j < 1 → snapshot_file out emptyStore j = None) as Hnone.
  { intros j Hj. assert (j = 0) as -> by lia. reflexivity. }
  destruct (request_status out snapshotStore "-1") as (_ & Hneg & _).
  destruct (request_status out emptyStore "1") as (_ & _ & Hmiss & _).
  destruct (request_status out snapshotStore "0") as (Hbad & _).
  split; [reflexivity|]. split; [apply (Hneg (-1)); [reflexivity|lia]|].
  split; [reflexivity|]. split; [exact Hnone|].
  split; [apply (Hmiss 1); [reflexivity|lia|exact Hnone]|].
  apply Hbad. right. right. reflexivity.
Defined.

Lemma viewer_receives_init_then_records_witness :
  let records :=
    [event 1 queryDecoded false false;
     event 2 mutationDecoded true true;
     event 3 queryDecoded false false] in
  let vs := [event 4 mutationDecoded true false; event 4 mutationDecoded true true] in
  let h1 := (tool.websocketHandler toolHandler snapshotStore (Ok (1%positive, viewer))).1 in
  tool._getAllRequestInfo (tool.recorder toolHandler) snapshotStore = Ok records ∧
  takes viewer (S (length vs)) ∧
  ∃ conn',
    tool.connections (tool.worker h1 vs) !! 1%positive = Some conn' ∧
    tool.written conn' =
      tool.written viewer ++ init_message records :: (record_message <$> vs).
Proof.
  intros records vs h1.
  assert (tool._getAllRequestInfo (tool.recorder toolHandler) snapshotStore = Ok records)
    as Hinit by reflexivity.
  assert (takes viewer (S (length vs))) as Htakes by exact I.
  split; [exact Hinit|]. split; [exact Htakes|].
  exact (viewer_receives_init_then_records toolHandler snapshotStore 1%positive viewer
           records vs Hinit Htakes).
Defined.

Lemma broken_connection_is_dropped_witness :
  let h :=
    {| tool.recorder := out;
       tool.connections := {[ 1%positive := goneViewer; 2%positive := viewer ]} |} in
  let v := event 4 mutationDecoded true false in
  tool.connections h !! 1%positive = Some goneViewer ∧
  tool.writes_left goneViewer = Some 0%nat ∧
  tool.connections (tool.forward h v) !! 1%positive = None ∧
  tool.connections (tool.forward h v) !! 2%positive
  = tool.connections (tool.forward (tool.websocketHandler_closed h 1%positive) v)
      !! 2%positive.
Proof.
  intros h v.
  destruct (broken_connection_is_dropped h 1%positive goneViewer v eq_refl eq_refl)
    as (Hgone & Hothers & _).
  split; [reflexivity|]. split; [reflexivity|]. split; [exact Hgone|].
  apply Hothers. discriminate.
Defined.

Lemma viewer_gets_nothing_when_a_request_is_missing_witness :
  GetAllRequestIDs (tool.recorder toolHandler) foreignStore = Ok [2; 1] ∧
  1 ∈ [2; 1] ∧
  GetRequest (tool.recorder toolHandler) foreignStore 1
  = Err (ErrNotExist "output/request-000001/request.txt") ∧
  tool.websocketHandler toolHandler foreignStore (Ok (1%positive, viewer))
  = (toolHandler, Some viewer).
Proof.
  assert (1 ∈ [2; 1]) as Hin by (right; left).
  split; [reflexivity|]. split; [exact Hin|]. split; [reflexivity|].
  exact (viewer_gets_nothing_when_a_request_is_missing toolHandler foreignStore
           1%positive viewer [2; 1] 1
           (ErrNotExist "output/request-000001/request.txt") eq_refl Hin eq_refl).
Defined.

Lemma kind_follows_query_text_witness :
  json_Unmarshal mutationToRecord
  = Ok {| OperationName := "operationToRecord"; Variables := "";
          Query := "mutation operationToRecord { someMutation }";
          OperationType_ := "" |} ∧
  ∃ q, ParseRequest mutationToRecord = Ok q ∧
       OperationType_ q = OperationTypeMutation ∧
       ShouldSnapshotRequest mainRequestSelector q = true.
Proof.
  assert (json_Unmarshal mutationToRecord
          = Ok {| OperationName := "operationToRecord"; Variables := "";
                  Query := "mutation operationToRecord { someMutation }";
                  OperationType_ := "" |}) as Hdecoded by reflexivity.
  split; [exact Hdecoded|].
  destruct (kind_follows_query_text mutationToRecord _ Hdecoded)
    as (q & Hparse & _ & _ & _ & _ & Hmut & _ & Hsnap).
  exists q. split; [exact Hparse|].
  split; [apply Hmut|apply Hsnap]; exists " operationToRecord { someMutation }";
    reflexivity.
Defined.

Lemma page_shows_latest_information_witness :
  let records := [event 1 queryDecoded false false; event 2 mutationDecoded true true] in
  let vs := [event 3 mutationDecoded true false; event 3 mutationDecoded true true] in
  let items :=
    foldl index_js.onMessage [] (init_message records :: (record_message <$> vs)) in
  NoDup (RequestID <$> records) ∧
  NoDup (index_js.id <$> items) ∧
  index_js.Item_new (event 3 mutationDecoded true true) ∈ items.
Proof.
  intros records vs items.
  assert (NoDup (RequestID <$> records)) as Hnd.
  { apply (bool_decide_unpack _). vm_compute. exact I. }
  destruct (page_shows_latest_information records vs) as (Hitems & Hdistinct).
  split; [exact Hnd|]. split; [exact (Hdistinct Hnd)|].
  apply Hitems. right. exists (event 3 mutationDecoded true false).
  split; [left|]. split; [|reflexivity].
  apply (bool_decide_unpack _). vm_compute. exact I.
Defined.

Lemma at_most_one_item_selected_witness :
  let evs :=
    [index_js.Message
       (init_message [event 1 queryDecoded false false;
                      event 2 mutationDecoded true true]);
     index_js.Click 0%nat;
     index_js.Message (record_message (event 3 queryDecoded false false));
     index_js.Click 2%nat] in
  (length (List.filter index_js._selected []) ≤ 1)%nat ∧
  (length (List.filter index_js._selected (foldl index_js.ui_step [] evs)) ≤ 1)%nat ∧
  List.filter index_js._selected (foldl index_js.ui_step [] evs)
  = [{| index_js._recordInfo := event 3 queryDecoded false false;
        index_js._selected := true |}].
Proof.
  intros evs.
  assert (length (List.filter index_js._selected []) ≤ 1)%nat as Hnone by (simpl; lia).
  split; [exact Hnone|].
  split; [exact (proj1 (at_most_one_item_selected [] evs Hnone))|].
  reflexivity.
Defined.

End FurtherWitnesses.
